(** * go-hexdump: a shallow embedding of [hexdump.go] and its properties

    The program reads a byte stream in chunks of [bufferSize] bytes and
    prints, for every row of [displayWidth] bytes, the row's offset, the
    bytes in hexadecimal and the bytes as printable ASCII.

    Conventions of the embedding:
    - a Go [byte] is a [Byte.byte]; a Go [uint64] is a [Z] in
      [0, 2^64) with the wrap-around of [position++] written out;
      Go [int] and [int64] values are [Z];
    - a Go [string] is a [String.string];
    - the two output channels are the fields of [World]; every call of
      [fmt.Printf], [fmt.Println] or [fmt.Fprintf] appends one entry;
    - a run-time panic (index out of range, division by zero) and
      [os.Exit] stop the computation: [Abort] with the exit status. *)

From Stdlib Require Import ZArith List Lia Bool.
From Stdlib Require Import Strings.Ascii Strings.String Strings.Byte.
Import ListNotations.

Local Open Scope Z_scope.

(** ** Constants of [hexdump.go] *)

Definition bufferSize : Z := 4096.

Definition normalWidth : Z := 16.
Definition wideWidth : Z := 32.
Definition extraWideWidth : Z := 64.

(** [^uint16(0)] and [^uint32(0)]: all bits set. *)
Definition maxUint16 : Z := Z.ones 16.
Definition maxUint32 : Z := Z.ones 32.

(** The largest [uint64] plus one: the modulus of [uint64] arithmetic. *)
Definition wrap64 : Z := 2 ^ 64.
Definition uint64 (z : Z) : Z := z mod wrap64.

(** The address formats.  The source holds them as the [Printf] verbs
    ["%2.2X"], ["%4.4X"], ["%8.8X"] and ["%16.16X"]; only the number of
    digits differs, so a format is modelled by its constant's name. *)
Inductive HexFormat : Type :=
| hex8Bits
| hex16Bits
| hex32Bits
| hex64Bits.

(** Width and precision of the verb. *)
Definition formatDigits (f : HexFormat) : nat :=
  match f with
  | hex8Bits => 2
  | hex16Bits => 4
  | hex32Bits => 8
  | hex64Bits => 16
  end%nat.

Definition chSpace : N := 0x20.
Definition chDel : N := 0x7F.

(** ** The pieces of Go's [fmt] the program uses *)

Definition LF : string := String "010"%char EmptyString.

Definition upperDigits : list ascii :=
  ["0"; "1"; "2"; "3"; "4"; "5"; "6"; "7";
   "8"; "9"; "A"; "B"; "C"; "D"; "E"; "F"]%char.

Definition lowerDigits : list ascii :=
  ["0"; "1"; "2"; "3"; "4"; "5"; "6"; "7";
   "8"; "9"; "a"; "b"; "c"; "d"; "e"; "f"]%char.

Definition digitChar (table : list ascii) (d : Z) : ascii :=
  nth (Z.to_nat d) table "?"%char.

(** The [k] low hexadecimal digits of [v], most significant first. *)
Fixpoint hexDigitsBE (k : nat) (v : Z) : list Z :=
  match k with
  | O => []
  | S k' => hexDigitsBE k' (v / 16) ++ [v mod 16]
  end.

(** Leading zeros are dropped while more than [prec] digits remain. *)
Fixpoint significant (prec : nat) (ds : list Z) : list Z :=
  match ds with
  | [] => []
  | d :: rest =>
      if (d =? 0) && (prec <? List.length ds)%nat
      then significant prec rest
      else ds
  end.

(** [%N.NX] applied to a [uint64]: upper-case hexadecimal, at least [N]
    digits, zero filled; a value that needs more digits gets them. *)
Definition sprintfHexUpper (f : HexFormat) (v : Z) : string :=
  string_of_list_ascii
    (map (digitChar upperDigits)
         (significant (formatDigits f) (hexDigitsBE 16 v))).

(** [%2.2x] applied to a [byte]: two lower-case hexadecimal digits. *)
Definition sprintfHex2 (b : byte) : string :=
  let v := Z.of_N (Byte.to_N b) in
  String (digitChar lowerDigits (v / 16))
         (String (digitChar lowerDigits (v mod 16)) EmptyString).

(** [%c] applied to a [byte] below 0x80: the character itself. *)
Definition sprintfChar (b : byte) : string :=
  String (ascii_of_byte b) EmptyString.

Fixpoint spaces (n : nat) : string :=
  match n with
  | O => EmptyString
  | S n' => String " "%char (spaces n')
  end.

(** [%-Ns]: the string, then spaces up to [n] characters; never cut. *)
Definition padRight (n : nat) (s : string) : string :=
  (s ++ spaces (n - String.length s))%string.

(** ** Output channels and control *)

Record World : Type := mkWorld {
  stdout : list string;
  stderr : list string
}.

Inductive outcome (A : Type) : Type :=
| Ok (a : A)
| Abort (status : Z).
Arguments Ok {A} a.
Arguments Abort {A} status.

Definition IO (A : Type) : Type := World -> outcome A * World.

Definition ret {A : Type} (a : A) : IO A := fun w => (Ok a, w).

Definition bind {A B : Type} (m : IO A) (f : A -> IO B) : IO B :=
  fun w =>
    match m w with
    | (Ok a, w') => f a w'
    | (Abort c, w') => (Abort c, w')
    end.

Notation "x <- m ;; k" := (bind m (fun x => k))
  (at level 61, m at next level, right associativity).
Notation "m ;;; k" := (bind m (fun _ => k))
  (at level 61, right associativity).

(** A Go run-time panic ends the process with status 2.  Before that
    the run-time system writes the panic message and a goroutine trace
    to standard error; that text is not modelled, so after a panic the
    field [stderr] says nothing about the error channel. *)
Definition panic {A : Type} : IO A := fun w => (Abort 2, w).

(** [os.Exit(code)]. *)
Definition osExit {A : Type} (code : Z) : IO A := fun w => (Abort code, w).

Definition writeStdout (s : string) : IO unit :=
  fun w => (Ok tt, mkWorld (stdout w ++ [s]) (stderr w)).

Definition writeStderr (s : string) : IO unit :=
  fun w => (Ok tt, mkWorld (stdout w) (stderr w ++ [s])).

(** ** [isPrintable] *)

Definition isPrintable (ch : byte) : bool :=
  if (chSpace <=? Byte.to_N ch)%N && (Byte.to_N ch <? chDel)%N
  then true
  else false.

(** ** [formatBuffer] *)

(** The local variables of [formatBuffer] that the loop updates. *)
Record Accum : Type := mkAccum {
  hexDigits : string;
  chrDigits : string;
  linePosition : Z;
  position : Z
}.

(** [fmt.Printf(outputFormat, linePosition, hexDigits, chrDigits)] with
    [outputFormat = fileScale + " : " + "%-<3*displayWidth>s" + "  : %s\n"].
    [main] passes 16, 32 or 64 for [displayWidth]; the verb that a
    negative width would build is not modelled. *)
Definition outputLine (fileScale : HexFormat) (displayWidth : Z)
    (linePos : Z) (hex chr : string) : string :=
  (sprintfHexUpper fileScale linePos ++ " : "
   ++ padRight (Z.to_nat (3 * displayWidth)) hex
   ++ "  : " ++ chr ++ LF)%string.

Definition printRow (fileScale : HexFormat) (displayWidth : Z)
    (st : Accum) : IO unit :=
  writeStdout (outputLine fileScale displayWidth
                 (linePosition st) (hexDigits st) (chrDigits st)).

(** The ASCII cell of one byte: lines 141-145. *)
Definition chrCell (b : byte) : string :=
  if isPrintable b then sprintfChar b else "."%string.

(** The hexadecimal cell of one byte: line 139. *)
Definition hexCell (b : byte) : string :=
  (" " ++ sprintfHex2 b)%string.

(** One iteration of the loop, lines 131-147, for index [i]. *)
Definition formatByte (buffer : list byte) (fileScale : HexFormat)
    (displayWidth : Z) (i : Z) (st : Accum) : IO Accum :=
  if uint64 displayWidth =? 0 then panic
  else
    let widthCounter := position st mod uint64 displayWidth in
    st1 <- (if (widthCounter =? 0) && (0 <? i)
            then printRow fileScale displayWidth st ;;;
                 ret (mkAccum EmptyString EmptyString
                              (position st) (position st))
            else ret st) ;;
    match nth_error buffer (Z.to_nat i) with
    | None => panic
    | Some b =>
        ret (mkAccum (hexDigits st1 ++ hexCell b)%string
                     (chrDigits st1 ++ chrCell b)%string
                     (linePosition st1)
                     (uint64 (position st1 + 1)))
    end.

(** [for i := 0; i < bytesInBuffer; i++]: [k] iterations are left and
    the index is [i]. *)
Fixpoint formatLoop (k : nat) (buffer : list byte) (fileScale : HexFormat)
    (displayWidth : Z) (i : Z) (st : Accum) : IO Accum :=
  match k with
  | O => ret st
  | S k' =>
      st' <- formatByte buffer fileScale displayWidth i st ;;
      formatLoop k' buffer fileScale displayWidth (i + 1) st'
  end.

Definition formatBuffer (buffer : list byte) (bytesInBuffer : Z)
    (fileScale : HexFormat) (pos : Z) (displayWidth : Z) : IO Z :=
  st <- formatLoop (Z.to_nat bytesInBuffer) buffer fileScale displayWidth 0
          (mkAccum EmptyString EmptyString pos pos) ;;
  printRow fileScale displayWidth st ;;;
  ret (position st).

(** ** Byte streams

    [error] is Go's [error] value as the program tells them apart: the
    sentinel [io.EOF] or any other error, of which only the text is used. *)
Inductive error : Type :=
| EOF
| Err (msg : string).

(** [err.Error()]. *)
Definition errorText (e : error) : string :=
  match e with
  | EOF => "EOF"%string
  | Err msg => msg
  end.

(** What one call of [fh.Read(buffer)] reports: the bytes it stored at
    the start of the buffer (their number is the [int] result) and its
    [error] result, [None] for [nil].  Go's [Read] has both results in
    every call, so all four combinations are values of this type. *)
Record ReadResult : Type := mkRead {
  delivered : list byte;
  failure : option error
}.

(** An open stream is the list of the results its coming [Read] calls
    give; once they are used up every further call reports end of stream,
    [(0, io.EOF)]. *)
Definition File : Type := list ReadResult.

(** [Read] overwrites the start of the buffer and leaves the rest. *)
Definition fill (buffer data : list byte) : list byte :=
  data ++ skipn (List.length data) buffer.

(** ** [hexdump] *)

(** [fmt.Println("Error:", err)] writes to standard output. *)
Definition printlnError (err : error) : IO unit :=
  writeStdout ("Error: " ++ errorText err ++ LF)%string.

(** The [for] loop of [hexdump], lines 100-109; the recursion follows
    the reads the stream still has to give. *)
Fixpoint readLoop (fh : File) (buffer : list byte) (fileScale : HexFormat)
    (offset : Z) (displayWidth : Z) : IO unit :=
  match fh with
  | [] => ret tt
  | r :: rest =>
      let buffer' := fill buffer (delivered r) in
      let bufferRead := Z.of_nat (List.length (delivered r)) in
      match failure r with
      | None =>
          offset' <- formatBuffer buffer' bufferRead fileScale offset
                       displayWidth ;;
          readLoop rest buffer' fileScale offset' displayWidth
      | Some EOF => ret tt
      | Some (Err msg) => printlnError (Err msg)
      end
  end.

Definition hexdump (fh : File) (fileScale : HexFormat)
    (displayWidth : Z) : IO unit :=
  readLoop fh (repeat x00 (Z.to_nat bufferSize)) fileScale 0 displayWidth.

(** ** [openRegularFile] *)

(** What [os.Stat] tells about a path: [fileInfo.Mode().IsRegular()] and
    [fileInfo.Size()]. *)
Record FileInfo : Type := mkFileInfo {
  IsRegular : bool;
  Size : Z
}.

(** The file system as the program sees it: the answers of [os.Stat] and
    [os.Open] for every path. *)
Record FileSystem : Type := mkFileSystem {
  osStat : string -> FileInfo + error;
  osOpen : string -> File + error
}.

(** The results of [openRegularFile]: [err == nil] with a handle and a
    scale, or [err != nil], in which case the caller reads nothing else. *)
Inductive OpenResult : Type :=
| Opened (fh : File) (fileSizeScale : HexFormat)
| Rejected (err : error).

(** The [switch] of lines 191-198. *)
Definition sizeScale (size : Z) : HexFormat :=
  if size <? maxUint16 then hex16Bits
  else if size <? maxUint32 then hex32Bits
  else hex64Bits.

Definition openRegularFile (fs : FileSystem) (filename : string)
    : OpenResult :=
  match osStat fs filename with
  | inr err => Rejected err
  | inl fileInfo =>
      if negb (IsRegular fileInfo)
      then Rejected
             (Err ("open " ++ filename ++ ": It's not a regular file")%string)
      else
        let fileSizeScale := sizeScale (Size fileInfo) in
        match osOpen fs filename with
        | inr err => Rejected err
        | inl fh => Opened fh fileSizeScale
        end
  end.

(** ** [main] *)

Definition skipWarning (err : error) : string :=
  (LF ++ "Warning: Skipping file: " ++ errorText err ++ LF)%string.

(** The body of the loop over [args], lines 77-84. *)
Definition dumpFile (fs : FileSystem) (displayWidth : Z)
    (file : string) : IO unit :=
  match openRegularFile fs file with
  | Rejected err => writeStderr (skipWarning err)
  | Opened fh fileScale => hexdump fh fileScale displayWidth
  end.

Fixpoint dumpFiles (fs : FileSystem) (displayWidth : Z)
    (args : list string) : IO unit :=
  match args with
  | [] => ret tt
  | file :: rest =>
      dumpFile fs displayWidth file ;;;
      dumpFiles fs displayWidth rest
  end.

Definition usageConflict : string :=
  ("Error: Wide and Extra wide options are mutually exclusive" ++ LF)%string.

(** [main] after [flag.Parse] has accepted the command line: the two
    flags, the remaining arguments, the file system and the stream on
    standard input.  A command line that [flag.Parse] refuses (an
    undefined flag, a malformed value) ends the process inside
    [flag.Parse] with status 2 and is not modelled.  The deferred
    [fh.Close()] calls write nothing and are left out. *)
Definition main (wide extraWide : bool) (args : list string)
    (fs : FileSystem) (stdin : File) : IO unit :=
  (if wide && extraWide
   then writeStderr usageConflict ;;; osExit 1
   else ret tt) ;;;
  let displayWidth :=
    if wide then wideWidth
    else if extraWide then extraWideWidth
    else normalWidth in
  let numberOfFiles := Z.of_nat (List.length args) in
  if numberOfFiles =? 0
  then hexdump stdin hex64Bits displayWidth
  else dumpFiles fs displayWidth args.

(** The status the process ends with. *)
Definition exitStatus {A : Type} (r : outcome A * World) : Z :=
  match fst r with
  | Ok _ => 0
  | Abort status => status
  end.

(** ** Describing the output

    The definitions below are not part of the program: they say what a
    row of the dump holds and read the bytes back from a printed line. *)

(** The hexadecimal text and the ASCII text of a run of bytes. *)
Fixpoint hexText (bs : list byte) : string :=
  match bs with
  | [] => EmptyString
  | b :: rest => (hexCell b ++ hexText rest)%string
  end.

Fixpoint chrText (bs : list byte) : string :=
  match bs with
  | [] => EmptyString
  | b :: rest => (chrCell b ++ chrText rest)%string
  end.

(** A row: the offset of its first byte and its bytes. *)
Definition Row : Type := (Z * list byte)%type.

Definition rowLine (fileScale : HexFormat) (displayWidth : Z)
    (r : Row) : string :=
  outputLine fileScale displayWidth (fst r) (hexText (snd r))
             (chrText (snd r)).

(** The rows' offsets when the first byte of the first row is at [p]:
    each row starts where the one before it ended, in [uint64]. *)
Fixpoint offsetsFrom (p : Z) (rows : list Row) : Prop :=
  match rows with
  | [] => True
  | r :: rest =>
      fst r = uint64 p /\ offsetsFrom (p + Z.of_nat (List.length (snd r))) rest
  end.

(** The place of a character in a table of digits. *)
Fixpoint digitIndex (table : list ascii) (c : ascii) : option nat :=
  match table with
  | [] => None
  | d :: rest =>
      if Ascii.eqb c d then Some O
      else option_map S (digitIndex rest c)
  end.

(** The value of a lower-case hexadecimal digit. *)
Definition hexValue (c : ascii) : option nat := digitIndex lowerDigits c.

(** The number a list of hexadecimal digits, most significant first,
    stands for, and the number an address field stands for. *)
Fixpoint digitsValue (ds : list Z) : Z :=
  match ds with
  | [] => 0
  | d :: rest => d * 16 ^ Z.of_nat (List.length rest) + digitsValue rest
  end.

Definition upperValue (c : ascii) : Z :=
  match digitIndex upperDigits c with
  | Some n => Z.of_nat n
  | None => 0
  end.

Definition addressValue (s : string) : Z :=
  digitsValue (map upperValue (list_ascii_of_string s)).

(** Reads cells of the form space, digit, digit and stops at the first
    group that is not one. *)
Fixpoint hexColumnBytes (s : string) : list byte :=
  match s with
  | String sp (String h (String l rest)) =>
      if Ascii.eqb sp " "
      then match hexValue h, hexValue l with
           | Some hi, Some lo =>
               match Byte.of_N (N.of_nat (16 * hi + lo)) with
               | Some b => b :: hexColumnBytes rest
               | None => []
               end
           | _, _ => []
           end
      else []
  | _ => []
  end.

(** What follows the address and its [" : "] in a line. *)
Fixpoint afterAddress (s : string) : string :=
  match s with
  | EmptyString => EmptyString
  | String c rest =>
      if Ascii.eqb c " "
      then match rest with
           | String _ (String _ column) => column
           | _ => EmptyString
           end
      else afterAddress rest
  end.

(** The bytes shown in the hexadecimal column of a printed line. *)
Definition lineBytes (line : string) : list byte :=
  hexColumnBytes (afterAddress line).

(** The ASCII column of a printed line whose hexadecimal column has
    [displayWidth] cells: what stands between ["  : "] and the newline. *)
Definition lineAscii (displayWidth : Z) (line : string) : string :=
  let tail := afterAddress line in
  let n := Z.to_nat (3 * displayWidth) in
  substring (n + 4) (String.length tail - (n + 4) - 1) tail.

(** The number of bytes from offset [p] up to the next multiple of
    [displayWidth]: what is left of the row that holds [p]. *)
Definition room (displayWidth : Z) (p : Z) : nat :=
  Z.to_nat (displayWidth - p mod displayWidth).

(** The rows a chunk [c] whose first byte is at offset [p] falls into
    when rows end at the multiples of [displayWidth]: the first row runs
    up to the next multiple, the others start at one. *)
Fixpoint rowsFrom (fuel : nat) (displayWidth : Z) (p : Z)
    (c : list byte) : list Row :=
  match fuel with
  | O => []
  | S fuel' =>
      match c with
      | [] => []
      | _ :: _ =>
          (p, firstn (room displayWidth p) c)
            :: rowsFrom fuel' displayWidth
                 (p + Z.of_nat (room displayWidth p))
                 (skipn (room displayWidth p) c)
      end
  end.

(** The rows of one call: a call without bytes has one empty row. *)
Definition chunkRows (displayWidth : Z) (p : Z) (c : list byte) : list Row :=
  match c with
  | [] => [(p, [])]
  | _ :: _ => rowsFrom (List.length c) displayWidth p c
  end.

(** The loop of [formatBuffer] over the bytes themselves, without the
    buffer and the channel: [first] says that the index is 0. *)
Definition stepBytes (fileScale : HexFormat) (displayWidth : Z)
    (first : bool) (b : byte) (st : Accum) : Accum * list string :=
  let flush := (position st mod uint64 displayWidth =? 0) && negb first in
  let st1 := if flush
             then mkAccum EmptyString EmptyString (position st) (position st)
             else st in
  (mkAccum (hexDigits st1 ++ hexCell b)%string
           (chrDigits st1 ++ chrCell b)%string
           (linePosition st1)
           (uint64 (position st1 + 1)),
   if flush
   then [outputLine fileScale displayWidth
           (linePosition st) (hexDigits st) (chrDigits st)]
   else []).

Fixpoint foldBytes (fileScale : HexFormat) (displayWidth : Z)
    (first : bool) (bs : list byte) (st : Accum) : Accum * list string :=
  match bs with
  | [] => (st, [])
  | b :: rest =>
      let (st1, l1) := stepBytes fileScale displayWidth first b st in
      let (st2, l2) := foldBytes fileScale displayWidth false rest st1 in
      (st2, l1 ++ l2)
  end.

(** The chunks a stream delivers without error, as [Read] results. *)
Definition readsOf (chunks : list (list byte)) : File :=
  map (fun c => mkRead c None) chunks.

(** What a call leaves on the channels: [ls] more entries on standard
    output, nothing on the error channel. *)
Definition emits (w w' : World) (ls : list string) : Prop :=
  stdout w' = stdout w ++ ls /\ stderr w' = stderr w.

(** The accumulators hold the text of the bytes [cur], the row that
    started at offset [q - |cur|] and is still open when the next byte
    has offset [q]; the row is no longer than the position allows. *)
Definition tracks (displayWidth : Z) (st : Accum) (cur : list byte) (q : Z) : Prop :=
  hexDigits st = hexText cur
  /\ chrDigits st = chrText cur
  /\ position st = uint64 q
  /\ linePosition st = uint64 (q - Z.of_nat (List.length cur))
  /\ Z.of_nat (List.length cur) <= displayWidth
  /\ (position st mod displayWidth <> 0 ->
      Z.of_nat (List.length cur) <= position st mod displayWidth).

Definition shortRow (displayWidth : Z) (r : Row) : Prop :=
  Z.of_nat (List.length (snd r)) <= displayWidth.

(** The chunks the loop of [hexdump] passes to [formatBuffer]: what the
    reads delivered, up to the first read that reports an error. *)
Fixpoint formatted (fh : File) : list (list byte) :=
  match fh with
  | [] => []
  | r :: rest =>
      match failure r with
      | None => delivered r :: formatted rest
      | Some _ => []
      end
  end.

(** What [hexdump] prints about the first error a read reports. *)
Fixpoint reported (fh : File) : list string :=
  match fh with
  | [] => []
  | r :: rest =>
      match failure r with
      | None => reported rest
      | Some EOF => []
      | Some (Err msg) => [("Error: " ++ msg ++ LF)%string]
      end
  end.

(** The lines of one call of [formatBuffer] on the chunk [c] at [p]. *)
Definition callLines (fileScale : HexFormat) (displayWidth : Z)
    (c : list byte) (p : Z) : list string :=
  stdout (snd (formatBuffer c (Z.of_nat (List.length c)) fileScale p
                 displayWidth (mkWorld [] []))).

(** The lines of consecutive calls, each starting where the one before
    it stopped. *)
Fixpoint dumpLines (fileScale : HexFormat) (displayWidth : Z) (p : Z)
    (chunks : list (list byte)) : list string :=
  match chunks with
  | [] => []
  | c :: rest =>
      callLines fileScale displayWidth c p
      ++ dumpLines fileScale displayWidth
           (uint64 (p + Z.of_nat (List.length c))) rest
  end.

(** What one argument of [main] adds to each channel. *)
Definition fileStdout (fs : FileSystem) (displayWidth : Z)
    (file : string) : list string :=
  match openRegularFile fs file with
  | Rejected _ => []
  | Opened fh fileScale =>
      dumpLines fileScale displayWidth 0 (formatted fh) ++ reported fh
  end.

Definition fileStderr (fs : FileSystem) (file : string) : list string :=
  match openRegularFile fs file with
  | Rejected err => [skipWarning err]
  | Opened _ _ => []
  end.

(** The width [main] selects from the flags. *)
Definition selectedWidth (wide extraWide : bool) : Z :=
  if wide then wideWidth
  else if extraWide then extraWideWidth
  else normalWidth.

(** The widths [main] can select. *)
Definition supportedWidth (displayWidth : Z) : Prop :=
  In displayWidth [normalWidth; wideWidth; extraWideWidth].

(** The line in the words of the specification, for comparison: the
    two-digit values separated by single spaces, padded to three times
    the display width, and [" : "] on both sides of that column. *)
Fixpoint specHexValues (bs : list byte) : string :=
  match bs with
  | [] => EmptyString
  | [b] => sprintfHex2 b
  | b :: rest => (sprintfHex2 b ++ " " ++ specHexValues rest)%string
  end.

Definition specLine (fileScale : HexFormat) (displayWidth : Z)
    (a : Z) (bs : list byte) : string :=
  (sprintfHexUpper fileScale a ++ " : "
   ++ padRight (Z.to_nat (3 * displayWidth)) (specHexValues bs)
   ++ " : " ++ chrText bs ++ LF)%string.

(** ** Reading more of a printed line *)

(** Whether a text holds a newline. *)
Fixpoint hasLF (s : string) : bool :=
  match s with
  | EmptyString => false
  | String c rest => Ascii.eqb c "010" || hasLF rest
  end.

(** The address field of a printed line, the characters before the
    first space, and the offset it stands for. *)
Fixpoint addressField (s : string) : string :=
  match s with
  | EmptyString => EmptyString
  | String c rest =>
      if Ascii.eqb c " " then EmptyString else String c (addressField rest)
  end.

Definition lineAddress (line : string) : Z :=
  addressValue (addressField line).

(** The bytes [main] formats for one argument: those its stream
    delivers before the first read that reports an error, none for a
    path that is rejected. *)
Definition fileBytes (fs : FileSystem) (file : string) : list byte :=
  match openRegularFile fs file with
  | Rejected _ => []
  | Opened fh _ => List.concat (formatted fh)
  end.

(** The number of bytes shown by a list of rows. *)
Definition rowsLength (rows : list Row) : Z :=
  Z.of_nat (List.length (List.concat (map snd rows))).


(** ** Sample inputs *)

(** A file system without files. *)
Definition noFiles : FileSystem :=
  mkFileSystem (fun _ => inr (Err "no such file or directory"%string))
               (fun _ => inr (Err "no such file or directory"%string)).

(** A file system with the one regular file [ok.bin], of two bytes. *)
Definition oneFile : FileSystem :=
  mkFileSystem
    (fun f => if String.eqb f "ok.bin"%string
              then inl (mkFileInfo true 2)
              else inr (Err ("stat " ++ f
                             ++ ": no such file or directory")%string))
    (fun f => inl [mkRead [x41; x42] None]).

(** A file system in which every path is a regular file of 65534
    bytes, delivered in reads of at most [bufferSize] bytes. *)
Definition largeFileInfo : FileInfo := mkFileInfo true 65534.

Definition largeFileReads : File :=
  repeat (mkRead (repeat x00 4096) None) 15
  ++ [mkRead (repeat x00 4094) None].

Definition largeFiles : FileSystem :=
  mkFileSystem (fun _ => inl largeFileInfo) (fun _ => inl largeFileReads).

(** ** Strings *)

Lemma append_nil_r (s : string) : (s ++ "")%string = s.
Proof.
  induction s as [|c s IH]; simpl; [reflexivity | now rewrite IH].
Qed.

Lemma append_assoc (s t u : string) :
  ((s ++ t) ++ u)%string = (s ++ (t ++ u))%string.
Proof.
  induction s as [|c s IH]; simpl; [reflexivity | now rewrite IH].
Qed.

Lemma length_append (s t : string) :
  String.length (s ++ t) = (String.length s + String.length t)%nat.
Proof.
  induction s as [|c s IH]; simpl; [reflexivity | now rewrite IH].
Qed.

Lemma length_spaces (n : nat) : String.length (spaces n) = n.
Proof.
  induction n as [|n IH]; simpl; [reflexivity | now rewrite IH].
Qed.

Lemma length_padRight (n : nat) (s : string) :
  (String.length s <= n)%nat -> String.length (padRight n s) = n.
Proof.
  intros H. unfold padRight. rewrite length_append, length_spaces. lia.
Qed.

Lemma hexText_app (xs ys : list byte) :
  hexText (xs ++ ys) = (hexText xs ++ hexText ys)%string.
Proof.
  induction xs as [|x xs IH]; cbn [hexText app]; [reflexivity|].
  now rewrite IH, append_assoc.
Qed.

Lemma chrText_app (xs ys : list byte) :
  chrText (xs ++ ys) = (chrText xs ++ chrText ys)%string.
Proof.
  induction xs as [|x xs IH]; cbn [chrText app]; [reflexivity|].
  now rewrite IH, append_assoc.
Qed.

Lemma length_hexCell (b : byte) : String.length (hexCell b) = 3%nat.
Proof. reflexivity. Qed.

Lemma length_chrCell (b : byte) : String.length (chrCell b) = 1%nat.
Proof. unfold chrCell. now destruct (isPrintable b). Qed.

Lemma length_hexText (bs : list byte) :
  String.length (hexText bs) = (3 * List.length bs)%nat.
Proof.
  induction bs as [|b bs IH]; cbn [hexText]; [reflexivity|].
  rewrite length_append, length_hexCell, IH. cbn [List.length]. lia.
Qed.

Lemma length_chrText (bs : list byte) :
  String.length (chrText bs) = List.length bs.
Proof.
  induction bs as [|b bs IH]; cbn [chrText]; [reflexivity|].
  rewrite length_append, length_chrCell, IH. reflexivity.
Qed.

Lemma concat_cons (x : string) (xs : list string) :
  String.concat EmptyString (x :: xs)
  = (x ++ String.concat EmptyString xs)%string.
Proof.
  destruct xs as [|y ys]; cbn [String.concat append].
  - now rewrite append_nil_r.
  - reflexivity.
Qed.

Lemma concat_app (xs ys : list string) :
  String.concat EmptyString (xs ++ ys)
  = (String.concat EmptyString xs ++ String.concat EmptyString ys)%string.
Proof.
  induction xs as [|x xs IH]; [reflexivity|].
  cbn [app]. now rewrite !concat_cons, IH, append_assoc.
Qed.

Lemma chrText_rows (rows : list Row) :
  String.concat EmptyString (map (fun r => chrText (snd r)) rows)
  = chrText (List.concat (map snd rows)).
Proof.
  induction rows as [|r rows IH]; [reflexivity|].
  cbn [map List.concat]. now rewrite concat_cons, chrText_app, IH.
Qed.

(** ** The loop of [formatBuffer] as a fold over the bytes *)

Lemma skipn_cons_nth {A : Type} (n : nat) (l : list A) (x : A) (r : list A) :
  skipn n l = x :: r -> nth_error l n = Some x /\ skipn (S n) l = r.
Proof.
  revert l. induction n as [|n IH]; intros l H.
  - destruct l as [|y l]; simpl in H; [discriminate|].
    injection H as -> ->. now split.
  - destruct l as [|y l]; simpl in H; [discriminate|].
    apply IH in H. exact H.
Qed.

Lemma emits_nil (w : World) : emits w w [].
Proof. split; [now rewrite app_nil_r | reflexivity]. Qed.

Lemma emits_trans (w1 w2 w3 : World) (l1 l2 : list string) :
  emits w1 w2 l1 -> emits w2 w3 l2 -> emits w1 w3 (l1 ++ l2).
Proof.
  intros [H1 H1'] [H2 H2']. split.
  - now rewrite H2, H1, app_assoc.
  - now rewrite H2', H1'.
Qed.

Lemma formatByte_step (buffer : list byte) (fileScale : HexFormat)
    (displayWidth i : Z) (st : Accum) (w : World) (b : byte) :
  uint64 displayWidth <> 0 ->
  0 <= i ->
  nth_error buffer (Z.to_nat i) = Some b ->
  exists w',
    formatByte buffer fileScale displayWidth i st w
    = (Ok (fst (stepBytes fileScale displayWidth (i =? 0) b st)), w')
    /\ emits w w' (snd (stepBytes fileScale displayWidth (i =? 0) b st)).
Proof.
  intros HW Hi Hb. unfold formatByte, stepBytes.
  destruct (uint64 displayWidth =? 0) eqn:E; [apply Z.eqb_eq in E; contradiction|].
  assert (Hf : (0 <? i) = negb (i =? 0)).
  { destruct (Z.eqb_spec i 0) as [->|Hn]; simpl; [reflexivity|].
    apply Z.ltb_lt. lia. }
  rewrite Hf. unfold bind.
  destruct ((position st mod uint64 displayWidth =? 0) && negb (i =? 0)) eqn:Efl;
    cbn -[uint64 outputLine hexCell chrCell]; rewrite Hb.
  - eexists. split; [reflexivity|]. split; reflexivity.
  - exists w. split; [reflexivity|]. apply emits_nil.
Qed.

Lemma formatLoop_fold (fileScale : HexFormat) (displayWidth : Z)
    (buffer : list byte) :
  uint64 displayWidth <> 0 ->
  forall (bs tail : list byte) (i : Z) (st : Accum) (w : World),
    0 <= i ->
    skipn (Z.to_nat i) buffer = bs ++ tail ->
    exists w',
      formatLoop (List.length bs) buffer fileScale displayWidth i st w
      = (Ok (fst (foldBytes fileScale displayWidth (i =? 0) bs st)), w')
      /\ emits w w' (snd (foldBytes fileScale displayWidth (i =? 0) bs st)).
Proof.
  intros HW. induction bs as [|b bs IH]; intros tail i st w Hi Hsk.
  - exists w. split; [reflexivity | apply emits_nil].
  - cbn [app] in Hsk. apply skipn_cons_nth in Hsk as [Hb Hrest].
    destruct (formatByte_step buffer fileScale displayWidth i st w b HW Hi Hb)
      as (w1 & E1 & Em1).
    assert (Hi1 : 0 <= i + 1) by lia.
    assert (Hsk1 : skipn (Z.to_nat (i + 1)) buffer = bs ++ tail).
    { replace (Z.to_nat (i + 1)) with (S (Z.to_nat i)) by lia. exact Hrest. }
    assert (Hz : (i + 1 =? 0) = false) by (apply Z.eqb_neq; lia).
    cbn [List.length formatLoop foldBytes]. unfold bind at 1. rewrite E1.
    destruct (stepBytes fileScale displayWidth (i =? 0) b st) as [st1 l1] eqn:Es.
    cbn [fst snd] in *.
    destruct (IH tail (i + 1) st1 w1 Hi1 Hsk1) as (w2 & E2 & Em2).
    rewrite Hz in E2, Em2.
    destruct (foldBytes fileScale displayWidth false bs st1) as [st2 l2] eqn:Ef.
    cbn [fst snd] in *.
    exists w2. split; [exact E2|]. eapply emits_trans; eassumption.
Qed.

(** A call with a count within the buffer runs the fold over the first
    [bytesInBuffer] bytes, prints the rows it flushed and then the
    accumulators, and returns the position it reached. *)
Lemma formatBuffer_fold (buffer : list byte) (bytesInBuffer : Z)
    (fileScale : HexFormat) (pos displayWidth : Z) (w : World) :
  uint64 displayWidth <> 0 ->
  0 <= bytesInBuffer <= Z.of_nat (List.length buffer) ->
  let bs := firstn (Z.to_nat bytesInBuffer) buffer in
  let r := foldBytes fileScale displayWidth true bs
             (mkAccum EmptyString EmptyString pos pos) in
  exists w',
    formatBuffer buffer bytesInBuffer fileScale pos displayWidth w
    = (Ok (position (fst r)), w')
    /\ emits w w'
         (snd r ++ [outputLine fileScale displayWidth (linePosition (fst r))
                      (hexDigits (fst r)) (chrDigits (fst r))]).
Proof.
  intros HW Hn bs r.
  assert (Hlen : List.length bs = Z.to_nat bytesInBuffer).
  { unfold bs. rewrite length_firstn. lia. }
  assert (Hsk : skipn (Z.to_nat 0) buffer
                = bs ++ skipn (Z.to_nat bytesInBuffer) buffer).
  { unfold bs. cbn [Z.to_nat skipn]. symmetry. apply firstn_skipn. }
  destruct (formatLoop_fold fileScale displayWidth buffer HW bs _ 0
              (mkAccum EmptyString EmptyString pos pos) w (Z.le_refl 0) Hsk)
    as (w1 & E1 & Em1).
  change (0 =? 0) with true in E1, Em1. fold r in E1, Em1.
  unfold formatBuffer, bind. rewrite <- Hlen, E1.
  unfold printRow, writeStdout, ret.
  eexists. split; [reflexivity|].
  eapply emits_trans; [exact Em1|]. split; reflexivity.
Qed.

(** ** Arithmetic of offsets *)

Lemma wrap64_pos : 0 < wrap64.
Proof. reflexivity. Qed.

Lemma uint64_range (z : Z) : 0 <= uint64 z < wrap64.
Proof. apply Z.mod_pos_bound, wrap64_pos. Qed.

Lemma uint64_small (z : Z) : 0 <= z < wrap64 -> uint64 z = z.
Proof. apply Z.mod_small. Qed.

Lemma uint64_succ (z : Z) : uint64 (uint64 z + 1) = uint64 (z + 1).
Proof. unfold uint64. apply Zplus_mod_idemp_l. Qed.

Lemma mod_succ (p W : Z) :
  0 < W -> (p + 1) mod W <> 0 -> (p + 1) mod W = p mod W + 1.
Proof.
  intros HW Hnz.
  pose proof (Z.mod_pos_bound p W HW) as Hr.
  pose proof (Z.div_mod p W ltac:(lia)) as Hp.
  destruct (Z.eq_dec (p mod W + 1) W) as [E|E].
  - exfalso. apply Hnz.
    replace (p + 1) with ((p / W + 1) * W) by lia.
    apply Z.mod_mul. lia.
  - symmetry. apply (Z.mod_unique (p + 1) W (p / W)); lia.
Qed.

(** ** The rows a call prints *)

Section Shape.

Variable fileScale : HexFormat.
Variable displayWidth : Z.
Hypothesis width_ok : 0 < displayWidth < wrap64.

Lemma width_uint64 : uint64 displayWidth = displayWidth.
Proof. apply uint64_small. lia. Qed.

Lemma width_nonzero : uint64 displayWidth <> 0.
Proof. rewrite width_uint64. lia. Qed.

Lemma tracks_start (b : byte) (lp p q : Z) :
  p = uint64 q -> lp = p ->
  tracks displayWidth (mkAccum (EmptyString ++ hexCell b) (EmptyString ++ chrCell b)
                  lp (uint64 (p + 1)))
         [b] (q + 1).
Proof.
  intros -> ->. unfold tracks. cbn [hexDigits chrDigits position linePosition
    hexText chrText List.length].
  rewrite !append_nil_r. repeat split.
  - apply uint64_succ.
  - f_equal. lia.
  - lia.
  - intros Hnz.
    pose proof (Z.mod_pos_bound (uint64 (uint64 q + 1)) displayWidth
                  ltac:(lia)). lia.
Qed.

Lemma tracks_extend (st : Accum) (cur : list byte) (q : Z) (b : byte) :
  tracks displayWidth st cur q ->
  position st mod displayWidth <> 0 ->
  tracks displayWidth (mkAccum (hexDigits st ++ hexCell b) (chrDigits st ++ chrCell b)
                  (linePosition st) (uint64 (position st + 1)))
         (cur ++ [b]) (q + 1).
Proof.
  intros (Hh & Hc & Hp & Hl & Hlen & Hmod) Hnz.
  specialize (Hmod Hnz).
  pose proof (Z.mod_pos_bound (position st) displayWidth ltac:(lia)) as Hr.
  unfold tracks. cbn [hexDigits chrDigits position linePosition].
  rewrite hexText_app, chrText_app, length_app. cbn [hexText chrText List.length].
  rewrite !append_nil_r, Hh, Hc. repeat split.
  - rewrite Hp. apply uint64_succ.
  - rewrite Hl. f_equal. lia.
  - lia.
  - intros Hnz'.
    pose proof (uint64_range q) as Hq. rewrite <- Hp in Hq.
    destruct (Z.eq_dec (position st + 1) wrap64) as [E|E].
    + exfalso. apply Hnz'. rewrite E. unfold uint64.
      rewrite Z.mod_same by (pose proof wrap64_pos; lia). apply Z.mod_0_l. lia.
    + rewrite uint64_small in * by lia.
      rewrite mod_succ by (try lia; exact Hnz'). lia.
Qed.

Lemma foldBytes_shape (bs : list byte) :
  forall (first : bool) (st : Accum) (cur : list byte) (q : Z),
    tracks displayWidth st cur q ->
    (first = true -> cur = []) ->
    let r := foldBytes fileScale displayWidth first bs st in
    exists rows : list Row,
      snd r ++ [outputLine fileScale displayWidth (linePosition (fst r))
                  (hexDigits (fst r)) (chrDigits (fst r))]
      = map (rowLine fileScale displayWidth) rows
      /\ List.concat (map snd rows) = cur ++ bs
      /\ offsetsFrom (q - Z.of_nat (List.length cur)) rows
      /\ Forall (shortRow displayWidth) rows
      /\ position (fst r) = uint64 (q + Z.of_nat (List.length bs)).
Proof.
  induction bs as [|b bs IH]; intros first st cur q Htr Hfirst r.
  - destruct Htr as (Hh & Hc & Hp & Hl & Hlen & Hmod).
    exists [(linePosition st, cur)]. subst r. cbn [foldBytes fst snd app map].
    unfold rowLine. cbn [fst snd List.concat offsetsFrom List.length].
    rewrite Hh, Hc, !app_nil_r, Z.add_0_r. repeat split; auto.
  - subst r. cbn [foldBytes]. unfold stepBytes. rewrite width_uint64.
    destruct ((position st mod displayWidth =? 0) && negb first) eqn:Efl.
    + (* the open row is printed and a new one starts with [b] *)
      apply andb_true_iff in Efl as [Ez Ef].
      destruct Htr as (Hh & Hc & Hp & Hl & Hlen & Hmod).
      cbn [hexDigits chrDigits position linePosition].
      specialize (IH false _ [b] (q + 1)
                    (tracks_start b (position st) (position st) q Hp eq_refl)
                    ltac:(discriminate)).
      destruct (foldBytes fileScale displayWidth false bs _) as [st2 l2].
      cbn [fst snd] in *.
      destruct IH as (rows & Hls & Hcat & Hoff & Hshort & Hpos).
      exists ((linePosition st, cur) :: rows).
      cbn [map app List.concat fst snd offsetsFrom List.length]. repeat split.
      * rewrite <- Hls. unfold rowLine. cbn [fst snd]. now rewrite Hh, Hc.
      * rewrite Hcat. reflexivity.
      * exact Hl.
      * replace (q - Z.of_nat (List.length cur) + Z.of_nat (List.length cur))
          with (q + 1 - Z.of_nat (List.length [b])) by (cbn [List.length]; lia).
        exact Hoff.
      * constructor; [exact Hlen | exact Hshort].
      * rewrite Hpos. f_equal. lia.
    + (* [b] joins the open row *)
      assert (Htr1 : tracks displayWidth
                (mkAccum (hexDigits st ++ hexCell b) (chrDigits st ++ chrCell b)
                         (linePosition st) (uint64 (position st + 1)))
                (cur ++ [b]) (q + 1)).
      { destruct first.
        - rewrite (Hfirst eq_refl) in *.
          destruct Htr as (Hh & Hc & Hp & Hl & _).
          cbn [hexText chrText List.length] in *. rewrite Hh, Hc.
          apply tracks_start; [exact Hp|].
          rewrite Hl, Hp. f_equal. lia.
        - apply tracks_extend; [exact Htr|].
          rewrite andb_true_r in Efl. now apply Z.eqb_neq. }
      specialize (IH false _ (cur ++ [b]) (q + 1) Htr1 ltac:(discriminate)).
      destruct (foldBytes fileScale displayWidth false bs _) as [st2 l2].
      cbn [fst snd app] in *.
      destruct IH as (rows & Hls & Hcat & Hoff & Hshort & Hpos).
      exists rows. repeat split.
      * exact Hls.
      * rewrite Hcat, <- app_assoc. reflexivity.
      * rewrite length_app in Hoff. cbn [List.length] in Hoff.
        replace (q - Z.of_nat (List.length cur))
          with (q + 1 - Z.of_nat (List.length cur + 1)) by lia.
        exact Hoff.
      * exact Hshort.
      * rewrite Hpos. f_equal. cbn [List.length]. lia.
Qed.

End Shape.

Section Calls.

Variable fileScale : HexFormat.
Variable displayWidth : Z.
Hypothesis width_ok : 0 < displayWidth < wrap64.

Lemma tracks_initial (p : Z) :
  0 <= p < wrap64 ->
  tracks displayWidth (mkAccum EmptyString EmptyString p p) [] p.
Proof.
  intros Hp. unfold tracks.
  cbn [hexDigits chrDigits position linePosition hexText chrText List.length].
  rewrite Z.sub_0_r, uint64_small by exact Hp. repeat split; try lia.
  intros _. apply Z.mod_pos_bound. lia.
Qed.

(** The loop after [k] iterations has moved the position by [k]. *)
Lemma formatLoop_position (buffer : list byte) (p : Z) (k : nat) (w : World) :
  0 <= p < wrap64 ->
  (k <= List.length buffer)%nat ->
  exists st w',
    formatLoop k buffer fileScale displayWidth 0
      (mkAccum EmptyString EmptyString p p) w = (Ok st, w')
    /\ position st = uint64 (p + Z.of_nat k).
Proof.
  intros Hp Hk.
  assert (Hlen : List.length (firstn k buffer) = k)
    by (rewrite length_firstn; lia).
  assert (Hsk : skipn (Z.to_nat 0) buffer = firstn k buffer ++ skipn k buffer)
    by (symmetry; apply firstn_skipn).
  destruct (formatLoop_fold fileScale displayWidth buffer
              (width_nonzero displayWidth width_ok) _ _ 0
              (mkAccum EmptyString EmptyString p p) w (Z.le_refl 0) Hsk)
    as (w' & E & _).
  rewrite Hlen in E. change (0 =? 0) with true in E.
  destruct (foldBytes_shape fileScale displayWidth width_ok (firstn k buffer)
              true _ [] p (tracks_initial p Hp) (fun _ => eq_refl))
    as (rows & _ & _ & _ & _ & Hpos).
  rewrite Hlen in Hpos.
  eexists. exists w'. split; [exact E | exact Hpos].
Qed.

(** A call prints the rows of a partition of its bytes: each row starts
    at the offset of its first byte and has at most [displayWidth]
    bytes. *)
Lemma formatBuffer_rows (buffer : list byte) (bytesInBuffer p : Z)
    (w : World) :
  0 <= bytesInBuffer <= Z.of_nat (List.length buffer) ->
  0 <= p < wrap64 ->
  exists (w' : World) (rows : list Row),
    formatBuffer buffer bytesInBuffer fileScale p displayWidth w
    = (Ok (uint64 (p + bytesInBuffer)), w')
    /\ emits w w' (map (rowLine fileScale displayWidth) rows)
    /\ List.concat (map snd rows) = firstn (Z.to_nat bytesInBuffer) buffer
    /\ offsetsFrom p rows
    /\ Forall (shortRow displayWidth) rows.
Proof.
  intros Hn Hp.
  destruct (formatBuffer_fold buffer bytesInBuffer fileScale p displayWidth w
              (width_nonzero displayWidth width_ok) Hn) as (w' & E & Em).
  destruct (foldBytes_shape fileScale displayWidth width_ok
              (firstn (Z.to_nat bytesInBuffer) buffer)
              true _ [] p (tracks_initial p Hp) (fun _ => eq_refl))
    as (rows & Hls & Hcat & Hoff & Hshort & Hpos).
  cbn [List.length app] in Hcat, Hoff. rewrite Z.sub_0_r in Hoff.
  rewrite length_firstn in Hpos.
  replace (Z.of_nat (Nat.min (Z.to_nat bytesInBuffer) (List.length buffer)))
    with bytesInBuffer in Hpos by lia.
  exists w', rows. rewrite <- Hpos, <- Hls. repeat split; auto; apply Em.
Qed.

End Calls.

(** ** Reading a printed line back *)

Lemma digitChar_upper_no_space (d : Z) :
  Ascii.eqb (digitChar upperDigits d) " " = false.
Proof.
  unfold digitChar. generalize (Z.to_nat d). intros n.
  do 16 (destruct n as [|n]; [reflexivity|]).
  destruct n; reflexivity.
Qed.

Lemma afterAddress_digits (ds : list Z) (x : string) :
  afterAddress
    (string_of_list_ascii (map (digitChar upperDigits) ds) ++ " : " ++ x)
  = x.
Proof.
  induction ds as [|d ds IH]; [reflexivity|].
  cbn [map string_of_list_ascii append afterAddress].
  now rewrite digitChar_upper_no_space.
Qed.

Lemma afterAddress_outputLine (fileScale : HexFormat) (displayWidth a : Z)
    (hex chr : string) :
  afterAddress (outputLine fileScale displayWidth a hex chr)
  = (padRight (Z.to_nat (3 * displayWidth)) hex ++ "  : " ++ chr ++ LF)%string.
Proof. unfold outputLine, sprintfHexUpper. apply afterAddress_digits. Qed.

Lemma hexColumnBytes_cell (b : byte) (s : string) :
  hexColumnBytes (hexCell b ++ s) = b :: hexColumnBytes s.
Proof. destruct b; reflexivity. Qed.

Lemma hexColumnBytes_stop (s : string) :
  hexColumnBytes (String " " (String " " s)) = [].
Proof. destruct s; reflexivity. Qed.

Lemma hexColumnBytes_text (bs : list byte) (k : nat) (x : string) :
  hexColumnBytes (hexText bs ++ spaces k ++ "  : " ++ x) = bs.
Proof.
  induction bs as [|b bs IH]; cbn [hexText].
  - destruct k as [|k]; cbn [spaces append].
    + apply hexColumnBytes_stop.
    + destruct k; cbn [spaces append]; apply hexColumnBytes_stop.
  - rewrite append_assoc, hexColumnBytes_cell, IH. reflexivity.
Qed.

Lemma lineBytes_rowLine (fileScale : HexFormat) (displayWidth : Z) (r : Row) :
  lineBytes (rowLine fileScale displayWidth r) = snd r.
Proof.
  unfold lineBytes, rowLine. rewrite afterAddress_outputLine.
  unfold padRight. rewrite append_assoc. apply hexColumnBytes_text.
Qed.

Lemma substring_skip (a b : string) (m : nat) :
  substring (String.length a) m (a ++ b) = substring 0 m b.
Proof. induction a as [|c a IH]; [reflexivity | exact IH]. Qed.

Lemma substring_take (c d : string) :
  substring 0 (String.length c) (c ++ d) = c.
Proof.
  induction c as [|x c IH]; cbn [String.length append substring].
  - now destruct d.
  - now rewrite IH.
Qed.

Lemma lineAscii_rowLine (fileScale : HexFormat) (displayWidth : Z) (r : Row) :
  0 <= displayWidth ->
  shortRow displayWidth r ->
  lineAscii displayWidth (rowLine fileScale displayWidth r) = chrText (snd r).
Proof.
  intros HW Hshort. unfold lineAscii, rowLine.
  rewrite afterAddress_outputLine.
  set (n := Z.to_nat (3 * displayWidth)).
  set (pad := padRight n (hexText (snd r))).
  assert (Hpad : String.length pad = n).
  { apply length_padRight. rewrite length_hexText.
    unfold shortRow in Hshort. unfold n. lia. }
  assert (Hhead : String.length (pad ++ "  : ") = (n + 4)%nat)
    by (rewrite length_append, Hpad; reflexivity).
  rewrite <- (append_assoc pad "  : ").
  replace (String.length ((pad ++ "  : ") ++ chrText (snd r) ++ LF)
           - (n + 4) - 1)%nat
    with (String.length (chrText (snd r))).
  - rewrite <- Hhead, substring_skip. apply substring_take.
  - rewrite !length_append, Hpad. cbn [String.length LF]. lia.
Qed.

Lemma lineBytes_rows (fileScale : HexFormat) (displayWidth : Z)
    (rows : list Row) :
  map lineBytes (map (rowLine fileScale displayWidth) rows) = map snd rows.
Proof.
  rewrite map_map. apply map_ext. intros r. apply lineBytes_rowLine.
Qed.

Lemma lineAscii_rows (fileScale : HexFormat) (displayWidth : Z)
    (rows : list Row) :
  0 <= displayWidth ->
  Forall (shortRow displayWidth) rows ->
  map (lineAscii displayWidth) (map (rowLine fileScale displayWidth) rows)
  = map (fun r => chrText (snd r)) rows.
Proof.
  intros HW Hall. rewrite map_map.
  induction Hall as [|r rows Hr _ IH]; [reflexivity|].
  cbn [map]. rewrite IH, lineAscii_rowLine by assumption. reflexivity.
Qed.

(** ** The stream driver *)

Section Driver.

Variable fileScale : HexFormat.
Variable displayWidth : Z.
Hypothesis width_ok : 0 < displayWidth < wrap64.

(** The lines of a call depend on the chunk and the position only: not
    on what the buffer holds behind the chunk, nor on what was printed
    before. *)
Lemma formatBuffer_callLines (c junk : list byte) (p : Z) (w : World) :
  0 <= p < wrap64 ->
  exists w',
    formatBuffer (c ++ junk) (Z.of_nat (List.length c)) fileScale p
      displayWidth w
    = (Ok (uint64 (p + Z.of_nat (List.length c))), w')
    /\ emits w w' (callLines fileScale displayWidth c p)
    /\ exists rows : list Row,
         callLines fileScale displayWidth c p
         = map (rowLine fileScale displayWidth) rows
         /\ List.concat (map snd rows) = c
         /\ offsetsFrom p rows
         /\ Forall (shortRow displayWidth) rows.
Proof.
  intros Hp.
  pose proof (width_nonzero displayWidth width_ok) as HW.
  assert (Hn : 0 <= Z.of_nat (List.length c)
               <= Z.of_nat (List.length (c ++ junk)))
    by (rewrite length_app; lia).
  assert (Hn0 : 0 <= Z.of_nat (List.length c) <= Z.of_nat (List.length c))
    by lia.
  destruct (formatBuffer_fold (c ++ junk) _ fileScale p displayWidth w HW Hn)
    as (w' & E & Em).
  destruct (formatBuffer_fold c _ fileScale p displayWidth (mkWorld [] [])
              HW Hn0) as (w0 & E0 & Em0).
  rewrite Nat2Z.id in *.
  rewrite firstn_app, Nat.sub_diag, firstn_all, firstn_O, app_nil_r in E, Em.
  rewrite firstn_all in E0, Em0.
  destruct (foldBytes_shape fileScale displayWidth width_ok c true _ [] p
              (tracks_initial displayWidth width_ok p Hp) (fun _ => eq_refl))
    as (rows & Hls & Hcat & Hoff & Hshort & Hpos).
  cbn [List.length app] in Hcat, Hoff. rewrite Z.sub_0_r in Hoff.
  assert (Hcall : callLines fileScale displayWidth c p
                  = map (rowLine fileScale displayWidth) rows).
  { unfold callLines. rewrite E0. cbn [snd]. destruct Em0 as [-> _].
    exact Hls. }
  exists w'. rewrite Hpos in E. split; [exact E|]. split.
  - rewrite Hcall, <- Hls. exact Em.
  - exists rows. auto.
Qed.

(** The loop of [hexdump] never aborts: it prints the lines of the
    chunks read before the first error, then the report of that error
    if it is not the end of the stream, all on standard output. *)
Lemma readLoop_emits (fh : File) :
  forall (buffer : list byte) (p : Z) (w : World),
    0 <= p < wrap64 ->
    exists w',
      readLoop fh buffer fileScale p displayWidth w = (Ok tt, w')
      /\ emits w w' (dumpLines fileScale displayWidth p (formatted fh)
                     ++ reported fh).
Proof.
  induction fh as [|r rest IH]; intros buffer p w Hp.
  - exists w. split; [reflexivity | apply emits_nil].
  - cbn [readLoop formatted reported].
    destruct (failure r) as [[|msg]|].
    + exists w. split; [reflexivity | apply emits_nil].
    + eexists. split; [reflexivity|]. split; reflexivity.
    + unfold fill, bind.
      destruct (formatBuffer_callLines (delivered r)
                  (skipn (List.length (delivered r)) buffer) p w Hp)
        as (w1 & E1 & Em1 & _).
      rewrite E1.
      destruct (IH (delivered r ++ skipn (List.length (delivered r)) buffer)
                  (uint64 (p + Z.of_nat (List.length (delivered r)))) w1
                  (uint64_range _)) as (w2 & E2 & Em2).
      exists w2. split; [exact E2|].
      cbn [dumpLines]. rewrite <- app_assoc.
      eapply emits_trans; eassumption.
Qed.

Lemma hexdump_emits (fh : File) (w : World) :
  exists w',
    hexdump fh fileScale displayWidth w = (Ok tt, w')
    /\ emits w w' (dumpLines fileScale displayWidth 0 (formatted fh)
                   ++ reported fh).
Proof. apply readLoop_emits. split; [lia | reflexivity]. Qed.

(** The lines of consecutive calls show the chunks' bytes in order. *)
Lemma dumpLines_bytes (chunks : list (list byte)) :
  forall p : Z,
    0 <= p < wrap64 ->
    List.concat (map lineBytes (dumpLines fileScale displayWidth p chunks))
    = List.concat chunks
    /\ String.concat EmptyString
         (map (lineAscii displayWidth)
              (dumpLines fileScale displayWidth p chunks))
       = chrText (List.concat chunks).
Proof.
  induction chunks as [|c chunks IH]; intros p Hp; [now split|].
  cbn [dumpLines List.concat].
  destruct (formatBuffer_callLines c [] p (mkWorld [] []) Hp)
    as (_ & _ & _ & rows & Hcall & Hcat & _ & Hshort).
  destruct (IH (uint64 (p + Z.of_nat (List.length c))) (uint64_range _))
    as [IHb IHa].
  rewrite !map_app, List.concat_app, concat_app, IHb, IHa, Hcall.
  rewrite lineBytes_rows, lineAscii_rows, chrText_rows, chrText_app, Hcat
    by (try lia; assumption).
  now split.
Qed.

End Driver.

Lemma supportedWidth_ok (displayWidth : Z) :
  supportedWidth displayWidth -> 0 < displayWidth < wrap64.
Proof.
  unfold supportedWidth. cbn [In].
  intros [<-|[<-|[<-|[]]]]; split; reflexivity.
Qed.

Lemma selectedWidth_supported (wide extraWide : bool) :
  supportedWidth (selectedWidth wide extraWide).
Proof.
  unfold supportedWidth, selectedWidth. cbn [In].
  destruct wide; [|destruct extraWide]; auto.
Qed.

Lemma formatted_readsOf (chunks : list (list byte)) :
  formatted (readsOf chunks) = chunks /\ reported (readsOf chunks) = [].
Proof.
  induction chunks as [|c chunks [IH1 IH2]]; [now split|].
  cbn [readsOf map formatted reported failure delivered].
  fold (readsOf chunks). now rewrite IH1, IH2.
Qed.

(** * The properties *)

(** C1.  For every supported display width and every way the stream
    hands a byte sequence to [hexdump] in chunks, the bytes shown in the
    hexadecimal columns of the printed lines, taken in order, are the
    sequence itself: none is lost and none appears twice.  The ASCII
    columns, taken in order, are the ASCII rendering of the same
    sequence. *)
Theorem hexdump_reconstructs_stream (fileScale : HexFormat)
    (displayWidth : Z) (chunks : list (list byte)) (w : World) :
  supportedWidth displayWidth ->
  Forall (fun c => c <> [] /\ Z.of_nat (List.length c) <= bufferSize) chunks ->
  exists (w' : World) (lines : list string),
    hexdump (readsOf chunks) fileScale displayWidth w = (Ok tt, w')
    /\ stdout w' = stdout w ++ lines
    /\ stderr w' = stderr w
    /\ List.concat (map lineBytes lines) = List.concat chunks
    /\ String.concat EmptyString (map (lineAscii displayWidth) lines)
       = chrText (List.concat chunks).
Proof.
  intros HW _. apply supportedWidth_ok in HW.
  destruct (hexdump_emits fileScale displayWidth HW (readsOf chunks) w)
    as (w' & E & Hout & Herr).
  destruct (formatted_readsOf chunks) as [Hf Hr].
  rewrite Hf, Hr, app_nil_r in Hout.
  destruct (dumpLines_bytes fileScale displayWidth HW chunks 0
              ltac:(split; [lia | reflexivity])) as [Hb Ha].
  exists w', (dumpLines fileScale displayWidth 0 chunks).
  repeat split; assumption.
Qed.

Lemma hexdump_reconstructs_stream_witness :
  exists (w' : World) (lines : list string),
    hexdump (readsOf [[x41; x42; x0a]; [xff]]) hex64Bits 16 (mkWorld [] [])
    = (Ok tt, w')
    /\ stdout w' = [] ++ lines
    /\ stderr w' = []
    /\ List.concat (map lineBytes lines) = [x41; x42; x0a; xff]
    /\ String.concat EmptyString (map (lineAscii 16) lines)
       = chrText [x41; x42; x0a; xff].
Proof.
  apply (hexdump_reconstructs_stream hex64Bits 16 [[x41; x42; x0a]; [xff]]
           (mkWorld [] [])).
  - left. reflexivity.
  - repeat constructor; try discriminate; unfold bufferSize;
      cbn [List.length]; lia.
Defined.

(** C5, as stated, fails where the [uint64] offset wraps: one byte
    consumed at the largest offset brings the offset back to 0, which is
    neither the sum nor an increase. *)
Lemma formatBuffer_offset_wraps :
  fst (formatBuffer [x00] 1 hex64Bits 18446744073709551615 normalWidth
         (mkWorld [] []))
  = Ok 0
  /\ 0 <> 18446744073709551615 + 1
  /\ 0 < 18446744073709551615.
Proof. split; [vm_compute; reflexivity | split; lia]. Qed.

(** C5, amended.  For every buffer, every count [n] of valid bytes
    within it and every starting offset [p], [formatBuffer] returns
    [p + n] modulo [2^64]; after [k] bytes of the call the position is
    [p + k] modulo [2^64]; and when [p + n] stays below [2^64] the
    result is exactly [p + n], so not below [p]. *)
Theorem formatBuffer_returns_offset (buffer : list byte) (n : Z)
    (fileScale : HexFormat) (p displayWidth : Z) (w : World) :
  supportedWidth displayWidth ->
  0 <= n <= Z.of_nat (List.length buffer) ->
  0 <= p < wrap64 ->
  (exists w',
     formatBuffer buffer n fileScale p displayWidth w
     = (Ok (uint64 (p + n)), w'))
  /\ (forall k : Z,
        0 <= k <= n ->
        exists st w',
          formatLoop (Z.to_nat k) buffer fileScale displayWidth 0
            (mkAccum EmptyString EmptyString p p) w = (Ok st, w')
          /\ position st = uint64 (p + k))
  /\ (p + n < wrap64 -> uint64 (p + n) = p + n /\ p <= uint64 (p + n)).
Proof.
  intros HW Hn Hp. apply supportedWidth_ok in HW. repeat split.
  - destruct (formatBuffer_rows fileScale displayWidth HW buffer n p w Hn Hp)
      as (w' & rows & E & _).
    exists w'. exact E.
  - intros k Hk.
    destruct (formatLoop_position fileScale displayWidth HW buffer p
                (Z.to_nat k) w Hp ltac:(lia)) as (st & w' & E & Hpos).
    exists st, w'. split; [exact E|]. rewrite Hpos. f_equal. lia.
  - apply uint64_small. lia.
  - rewrite uint64_small; lia.
Qed.

Lemma formatBuffer_returns_offset_witness :
  (exists w',
     formatBuffer [x41; x42; x0a; xff] 4 hex16Bits 14 16 (mkWorld [] [])
     = (Ok (uint64 (14 + 4)), w'))
  /\ (forall k : Z,
        0 <= k <= 4 ->
        exists st w',
          formatLoop (Z.to_nat k) [x41; x42; x0a; xff] hex16Bits 16 0
            (mkAccum EmptyString EmptyString 14 14) (mkWorld [] [])
          = (Ok st, w')
          /\ position st = uint64 (14 + k))
  /\ (14 + 4 < wrap64 -> uint64 (14 + 4) = 14 + 4 /\ 14 <= uint64 (14 + 4)).
Proof.
  apply (formatBuffer_returns_offset [x41; x42; x0a; xff] 4 hex16Bits 14 16
           (mkWorld [] [])).
  - left. reflexivity.
  - cbn [List.length]. lia.
  - unfold wrap64. lia.
Defined.

(** C6.  A byte is printable exactly when its value is in [0x20, 0x7F),
    and its cell of the ASCII column is the byte itself when it is
    printable and a dot otherwise. *)
Theorem isPrintable_range (b : byte) :
  (isPrintable b = true <-> (0x20 <= Byte.to_N b < 0x7F)%N)
  /\ chrCell b
     = (if (0x20 <=? Byte.to_N b)%N && (Byte.to_N b <? 0x7F)%N
        then String (ascii_of_byte b) EmptyString
        else ".")%string
  /\ chrText [b] = chrCell b.
Proof.
  split; [|split].
  - unfold isPrintable, chSpace, chDel.
    rewrite <- N.leb_le, <- N.ltb_lt.
    destruct (0x20 <=? Byte.to_N b)%N, (Byte.to_N b <? 0x7F)%N;
      cbn [andb]; intuition congruence.
  - unfold chrCell, isPrintable, sprintfChar, chSpace, chDel.
    now destruct (_ && _).
  - cbn [chrText]. apply append_nil_r.
Qed.

(** C4.  Without file arguments [main] dumps standard input with the
    64-bit format, 16 digits.  A regular file that opens gets the
    format of its size: 16-bit below [maxUint16], so for 65534 bytes;
    32-bit from [maxUint16] and below [maxUint32], so for 65535 bytes;
    64-bit from [maxUint32] on. *)
Theorem address_scale_selection (wide extraWide : bool) (fs : FileSystem)
    (stdin : File) (w : World) (name : string) (info : FileInfo) (fh : File) :
  wide && extraWide = false ->
  osStat fs name = inl info ->
  IsRegular info = true ->
  osOpen fs name = inl fh ->
  main wide extraWide [] fs stdin w
  = hexdump stdin hex64Bits (selectedWidth wide extraWide) w
  /\ formatDigits hex64Bits = 16%nat
  /\ openRegularFile fs name = Opened fh (sizeScale (Size info))
  /\ maxUint16 = 65535
  /\ maxUint32 = 4294967295
  /\ (Size info < maxUint16 -> sizeScale (Size info) = hex16Bits)
  /\ (Size info = 65534 -> sizeScale (Size info) = hex16Bits)
  /\ (Size info = 65535 -> sizeScale (Size info) = hex32Bits)
  /\ (maxUint16 <= Size info < maxUint32 ->
      sizeScale (Size info) = hex32Bits)
  /\ (maxUint32 <= Size info -> sizeScale (Size info) = hex64Bits).
Proof.
  intros Hflags Hstat Hreg Hopen.
  split; [|split; [reflexivity|split; [|split; [reflexivity|split;
    [reflexivity|]]]]].
  - unfold main, bind. rewrite Hflags. reflexivity.
  - unfold openRegularFile. now rewrite Hstat, Hreg, Hopen.
  - unfold sizeScale. change maxUint16 with 65535.
    change maxUint32 with 4294967295.
    repeat split; intros H.
    + destruct (Z.ltb_spec (Size info) 65535); [reflexivity | lia].
    + now rewrite H.
    + now rewrite H.
    + destruct (Z.ltb_spec (Size info) 65535); [lia|].
      destruct (Z.ltb_spec (Size info) 4294967295); [reflexivity | lia].
    + destruct (Z.ltb_spec (Size info) 65535); [lia|].
      destruct (Z.ltb_spec (Size info) 4294967295); [lia | reflexivity].
Qed.

Lemma address_scale_selection_witness :
  main false false [] largeFiles [] (mkWorld [] [])
  = hexdump [] hex64Bits (selectedWidth false false) (mkWorld [] [])
  /\ formatDigits hex64Bits = 16%nat
  /\ openRegularFile largeFiles "data.bin"
     = Opened largeFileReads (sizeScale (Size largeFileInfo))
  /\ maxUint16 = 65535
  /\ maxUint32 = 4294967295
  /\ (Size largeFileInfo < maxUint16 ->
      sizeScale (Size largeFileInfo) = hex16Bits)
  /\ (Size largeFileInfo = 65534 ->
      sizeScale (Size largeFileInfo) = hex16Bits)
  /\ (Size largeFileInfo = 65535 ->
      sizeScale (Size largeFileInfo) = hex32Bits)
  /\ (maxUint16 <= Size largeFileInfo < maxUint32 ->
      sizeScale (Size largeFileInfo) = hex32Bits)
  /\ (maxUint32 <= Size largeFileInfo ->
      sizeScale (Size largeFileInfo) = hex64Bits).
Proof.
  apply (address_scale_selection false false largeFiles [] (mkWorld [] [])
           "data.bin" largeFileInfo largeFileReads); reflexivity.
Defined.

(** C10.  When a read reports an error, end of stream included, the
    bytes it delivered in the same call are not formatted: the output
    of [hexdump] is the same whatever those bytes are and whatever the
    stream would give afterwards, and the printed lines show exactly
    the bytes of the reads before it. *)
Theorem hexdump_discards_bytes_read_with_error (fileScale : HexFormat)
    (displayWidth : Z) (good : list (list byte)) (data : list byte)
    (err : error) (rest : File) (w : World) :
  supportedWidth displayWidth ->
  data <> [] ->
  hexdump (readsOf good ++ mkRead data (Some err) :: rest) fileScale
    displayWidth w
  = hexdump (readsOf good ++ [mkRead [] (Some err)]) fileScale
      displayWidth w
  /\ exists (w' : World) (lines : list string),
       hexdump (readsOf good ++ mkRead data (Some err) :: rest) fileScale
         displayWidth w = (Ok tt, w')
       /\ stdout w' = stdout w ++ lines ++ reported [mkRead data (Some err)]
       /\ stderr w' = stderr w
       /\ List.concat (map lineBytes lines) = List.concat good.
Proof.
  intros HW _. apply supportedWidth_ok in HW.
  assert (Hf : forall r : File,
            formatted (readsOf good ++ r) = good ++ formatted r
            /\ reported (readsOf good ++ r) = reported r).
  { intros r. induction good as [|c good [IH1 IH2]]; [now split|].
    cbn [readsOf map app formatted reported failure delivered].
    fold (readsOf good). now rewrite IH1, IH2. }
  split.
  - clear Hf. unfold hexdump. generalize (repeat x00 (Z.to_nat bufferSize)).
    generalize 0. generalize w.
    induction good as [|c good IH]; intros w1 p buffer.
    + cbn [readsOf map app readLoop failure]. reflexivity.
    + cbn [readsOf map app readLoop failure delivered]. fold (readsOf good).
      unfold bind. destruct (formatBuffer _ _ _ _ _ _) as [[p'|c'] w2];
        [apply IH | reflexivity].
  - destruct (hexdump_emits fileScale displayWidth HW
                (readsOf good ++ mkRead data (Some err) :: rest) w)
      as (w' & E & Hout & Herr).
    destruct (Hf (mkRead data (Some err) :: rest)) as [H1 H2].
    rewrite H1, H2 in Hout. cbn [formatted failure] in Hout.
    rewrite app_nil_r in Hout.
    exists w', (dumpLines fileScale displayWidth 0 good).
    repeat split; try assumption.
    apply (dumpLines_bytes fileScale displayWidth HW good 0).
    split; [lia | reflexivity].
Qed.

Lemma hexdump_discards_bytes_read_with_error_witness :
  hexdump (readsOf [[x41]] ++ mkRead [x42; x43] (Some EOF) :: [])
    hex64Bits 16 (mkWorld [] [])
  = hexdump (readsOf [[x41]] ++ [mkRead [] (Some EOF)]) hex64Bits 16
      (mkWorld [] [])
  /\ exists (w' : World) (lines : list string),
       hexdump (readsOf [[x41]] ++ mkRead [x42; x43] (Some EOF) :: [])
         hex64Bits 16 (mkWorld [] []) = (Ok tt, w')
       /\ stdout w' = [] ++ lines ++ reported [mkRead [x42; x43] (Some EOF)]
       /\ stderr w' = []
       /\ List.concat (map lineBytes lines) = List.concat [[x41]].
Proof.
  apply (hexdump_discards_bytes_read_with_error hex64Bits 16 [[x41]]
           [x42; x43] EOF [] (mkWorld [] [])).
  - left. reflexivity.
  - discriminate.
Defined.

(** C7 on the code.  A stream delivers one byte and then fails with an
    input/output error: the report of the error is the second entry of
    standard output, after the dump line, and the error channel stays
    empty. *)
Theorem read_error_is_printed_on_stdout :
  hexdump [mkRead [x41] None;
           mkRead [] (Some (Err "read data.bin: input/output error"))]
    hex16Bits normalWidth (mkWorld [] [])
  = (Ok tt,
     mkWorld
       [("0000" ++ " : " ++ " 41" ++ spaces 45 ++ "  : " ++ "A" ++ LF)%string;
        ("Error: read data.bin: input/output error" ++ LF)%string]
       []).
Proof. vm_compute. reflexivity. Qed.


(** ** The loop of [main] over its arguments *)

Lemma dumpFile_emits (fs : FileSystem) (displayWidth : Z) (file : string)
    (w : World) :
  0 < displayWidth < wrap64 ->
  exists w',
    dumpFile fs displayWidth file w = (Ok tt, w')
    /\ stdout w' = stdout w ++ fileStdout fs displayWidth file
    /\ stderr w' = stderr w ++ fileStderr fs file.
Proof.
  intros HW. unfold dumpFile, fileStdout, fileStderr.
  destruct (openRegularFile fs file) as [fh fileScale|err].
  - destruct (hexdump_emits fileScale displayWidth HW fh w)
      as (w' & E & Hout & Herr).
    exists w'. rewrite app_nil_r. repeat split; assumption.
  - eexists. split; [reflexivity|]. cbn [stdout stderr].
    rewrite app_nil_r. split; reflexivity.
Qed.

Lemma dumpFiles_emits (fs : FileSystem) (displayWidth : Z)
    (args : list string) :
  0 < displayWidth < wrap64 ->
  forall w : World,
  exists w',
    dumpFiles fs displayWidth args w = (Ok tt, w')
    /\ stdout w'
       = stdout w ++ List.concat (map (fileStdout fs displayWidth) args)
    /\ stderr w' = stderr w ++ List.concat (map (fileStderr fs) args).
Proof.
  intros HW. induction args as [|file rest IH]; intros w.
  - exists w. cbn [map List.concat]. rewrite !app_nil_r. now repeat split.
  - cbn [dumpFiles map List.concat]. unfold bind.
    destruct (dumpFile_emits fs displayWidth file w HW) as (w1 & E1 & O1 & R1).
    rewrite E1. destruct (IH w1) as (w2 & E2 & O2 & R2).
    exists w2. rewrite O2, R2, O1, R1, <- !app_assoc. now repeat split.
Qed.


(** ** The rows of the grid *)

Section Grid.

Variable fileScale : HexFormat.
Variable displayWidth : Z.
Hypothesis width_ok : 0 < displayWidth < wrap64.

Lemma room_bounds (p : Z) :
  1 <= Z.of_nat (room displayWidth p) <= displayWidth
  /\ Z.of_nat (room displayWidth p) = displayWidth - p mod displayWidth.
Proof.
  unfold room.
  pose proof (Z.mod_pos_bound p displayWidth ltac:(lia)). lia.
Qed.

Lemma room_end (p : Z) :
  (p + Z.of_nat (room displayWidth p)) mod displayWidth = 0.
Proof.
  destruct (room_bounds p) as [_ ->].
  pose proof (Z.div_mod p displayWidth ltac:(lia)) as Hp.
  replace (p + (displayWidth - p mod displayWidth))
    with ((p / displayWidth + 1) * displayWidth) by lia.
  apply Z.mod_mul. lia.
Qed.

(** Inside the row no offset but the row's end is a multiple. *)
Lemma room_inside (p n : Z) :
  1 <= n <= Z.of_nat (room displayWidth p) ->
  (p + n) mod displayWidth = 0 ->
  n = Z.of_nat (room displayWidth p).
Proof.
  intros Hn Hz. destruct (room_bounds p) as [_ Hroom]. rewrite Hroom in *.
  pose proof (Z.mod_pos_bound p displayWidth ltac:(lia)) as Hr.
  pose proof (Z.div_mod p displayWidth ltac:(lia)) as Hp.
  destruct (Z.eq_dec n (displayWidth - p mod displayWidth)) as [E|E];
    [exact E | exfalso].
  assert (Hm : (p + n) mod displayWidth = p mod displayWidth + n).
  { symmetry. apply (Z.mod_unique (p + n) displayWidth (p / displayWidth));
      lia. }
  lia.
Qed.

Lemma room_next (p n : Z) :
  1 <= n < Z.of_nat (room displayWidth p) ->
  Z.of_nat (room displayWidth (p + n)) = Z.of_nat (room displayWidth p) - n.
Proof.
  intros Hn. destruct (room_bounds p) as [_ Hroom].
  destruct (room_bounds (p + n)) as [_ ->]. rewrite Hroom in *.
  pose proof (Z.mod_pos_bound p displayWidth ltac:(lia)) as Hr.
  pose proof (Z.div_mod p displayWidth ltac:(lia)) as Hp.
  assert (Hm : (p + n) mod displayWidth = p mod displayWidth + n).
  { symmetry. apply (Z.mod_unique (p + n) displayWidth (p / displayWidth));
      lia. }
  lia.
Qed.

Lemma rowsFrom_nil (fuel : nat) (p : Z) : rowsFrom fuel displayWidth p [] = [].
Proof. now destruct fuel. Qed.

(** Fuel beyond the length of the chunk changes nothing. *)
Lemma rowsFrom_fuel (f1 : nat) :
  forall (f2 : nat) (p : Z) (c : list byte),
    (List.length c <= f1)%nat -> (List.length c <= f2)%nat ->
    rowsFrom f1 displayWidth p c = rowsFrom f2 displayWidth p c.
Proof.
  induction f1 as [|f1 IH]; intros f2 p c H1 H2.
  - destruct c; [now rewrite !rowsFrom_nil | cbn [List.length] in H1; lia].
  - destruct c as [|b c]; [now rewrite !rowsFrom_nil|].
    destruct f2 as [|f2]; [cbn [List.length] in H2; lia|].
    cbn [rowsFrom]. f_equal.
    pose proof (room_bounds p) as [Hr _].
    apply IH; rewrite length_skipn; cbn [List.length] in *; lia.
Qed.

Lemma rowsFrom_step (fuel : nat) (p : Z) (c : list byte) :
  c <> [] -> (List.length c <= fuel)%nat ->
  rowsFrom fuel displayWidth p c
  = (p, firstn (room displayWidth p) c)
      :: rowsFrom fuel displayWidth (p + Z.of_nat (room displayWidth p))
           (skipn (room displayWidth p) c).
Proof.
  intros Hc Hf. destruct c as [|b c]; [contradiction|].
  destruct fuel as [|fuel]; [cbn [List.length] in Hf; lia|].
  change (rowsFrom (S fuel) displayWidth p (b :: c))
    with ((p, firstn (room displayWidth p) (b :: c))
            :: rowsFrom fuel displayWidth (p + Z.of_nat (room displayWidth p))
                 (skipn (room displayWidth p) (b :: c))).
  f_equal. pose proof (room_bounds p) as [Hr _].
  apply rowsFrom_fuel; rewrite length_skipn; cbn [List.length] in *; lia.
Qed.

(** The loop on the bytes after the first: the open row [cur] starts at
    [a] and fits in what is left of its row of the grid. *)
Lemma foldBytes_rowsFrom (bs : list byte) :
  forall (st : Accum) (cur : list byte) (a : Z) (fuel : nat),
    hexDigits st = hexText cur ->
    chrDigits st = chrText cur ->
    linePosition st = a ->
    position st = uint64 (a + Z.of_nat (List.length cur)) ->
    cur <> [] ->
    (List.length cur <= room displayWidth a)%nat ->
    0 <= a ->
    a + Z.of_nat (List.length cur) + Z.of_nat (List.length bs) <= wrap64 ->
    (List.length cur + List.length bs <= fuel)%nat ->
    let r := foldBytes fileScale displayWidth false bs st in
    snd r ++ [outputLine fileScale displayWidth (linePosition (fst r))
                (hexDigits (fst r)) (chrDigits (fst r))]
    = map (rowLine fileScale displayWidth)
          (rowsFrom fuel displayWidth a (cur ++ bs)).
Proof.
  induction bs as [|b bs IH];
    intros st cur a fuel Hh Hc Hl Hp Hne Hroom Ha Hmax Hfuel r; subst r.
  - cbn [foldBytes fst snd app]. rewrite app_nil_r in *.
    rewrite rowsFrom_step by (cbn [List.length] in Hfuel; auto; lia).
    rewrite firstn_all2, skipn_all2, rowsFrom_nil by lia.
    cbn [map]. unfold rowLine. cbn [fst snd]. now rewrite Hh, Hc, Hl.
  - cbn [List.length] in Hmax, Hfuel.
    assert (Hq : position st = a + Z.of_nat (List.length cur)).
    { rewrite Hp. apply uint64_small. lia. }
    assert (Hlen : (1 <= List.length cur)%nat)
      by (destruct cur; [contradiction | cbn [List.length]; lia]).
    cbn [foldBytes]. unfold stepBytes.
    rewrite (width_uint64 displayWidth width_ok), andb_true_r.
    destruct (position st mod displayWidth =? 0) eqn:Ez.
    + (* the offset is a multiple: the row is complete *)
      apply Z.eqb_eq in Ez. rewrite Hq in Ez.
      apply room_inside in Ez; [|lia].
      assert (Er : room displayWidth a = List.length cur) by lia.
      cbn [hexDigits chrDigits position linePosition].
      specialize (IH (mkAccum (EmptyString ++ hexCell b)
                        (EmptyString ++ chrCell b) (position st)
                        (uint64 (position st + 1)))
                    [b] (position st) fuel).
      cbn [hexDigits chrDigits position linePosition hexText chrText
           List.length] in IH.
      rewrite !append_nil_r in IH.
      pose proof (room_bounds (position st)) as [Hrb _].
      specialize (IH eq_refl eq_refl eq_refl eq_refl ltac:(discriminate)
                    ltac:(lia) ltac:(lia) ltac:(lia) ltac:(lia)).
      cbn [append] in *.
      destruct (foldBytes fileScale displayWidth false bs _) as [st2 l2].
      cbn [fst snd app] in *.
      rewrite rowsFrom_step
        by (try rewrite length_app; cbn [List.length]; try lia;
            now destruct cur).
      rewrite Er, firstn_app, Nat.sub_diag, firstn_all, firstn_O, app_nil_r.
      rewrite skipn_app, Nat.sub_diag, skipn_all. cbn [skipn app map].
      rewrite <- Hq, <- IH. unfold rowLine at 1. cbn [fst snd].
      now rewrite Hh, Hc, Hl.
    + (* the byte joins the open row *)
      apply Z.eqb_neq in Ez. rewrite Hq in Ez.
      assert (Hlt : (List.length cur < room displayWidth a)%nat).
      { destruct (Nat.eq_dec (List.length cur) (room displayWidth a)) as [E|E];
          [|lia].
        exfalso. apply Ez. rewrite E. apply room_end. }
      specialize (IH (mkAccum (hexDigits st ++ hexCell b)
                        (chrDigits st ++ chrCell b) (linePosition st)
                        (uint64 (position st + 1)))
                    (cur ++ [b]) a fuel).
      cbn [hexDigits chrDigits position linePosition] in IH.
      rewrite hexText_app, chrText_app, length_app in IH.
      cbn [hexText chrText List.length] in IH.
      rewrite !append_nil_r, Hh, Hc in IH.
      specialize (IH eq_refl eq_refl Hl).
      rewrite <- app_assoc in IH. cbn [app] in IH. rewrite Hh, Hc.
      destruct (foldBytes fileScale displayWidth false bs _) as [st2 l2].
      cbn [fst snd app] in *.
      apply IH; try lia.
      * rewrite Hq. f_equal. lia.
      * now destruct cur.
Qed.

(** The lines of a call are the rows of the grid its chunk falls
    into, as long as the offset does not wrap within the call. *)
Lemma callLines_chunkRows (c : list byte) (p : Z) :
  0 <= p ->
  p + Z.of_nat (List.length c) <= wrap64 ->
  p < wrap64 ->
  callLines fileScale displayWidth c p
  = map (rowLine fileScale displayWidth) (chunkRows displayWidth p c).
Proof.
  intros Hp Hmax Hlt.
  destruct (formatBuffer_fold c (Z.of_nat (List.length c)) fileScale p
              displayWidth (mkWorld [] [])
              (width_nonzero displayWidth width_ok) ltac:(lia))
    as (w' & E & Hout & _).
  unfold callLines. rewrite E. cbn [snd]. rewrite Hout. cbn [stdout app].
  rewrite Nat2Z.id, firstn_all.
  destruct c as [|b c]; [reflexivity|].
  cbn [foldBytes chunkRows]. unfold stepBytes. rewrite andb_false_r.
  cbn [hexDigits chrDigits position linePosition].
  pose proof (room_bounds p) as [Hrb _].
  pose proof (foldBytes_rowsFrom c
                (mkAccum (EmptyString ++ hexCell b) (EmptyString ++ chrCell b)
                         p (uint64 (p + 1)))
                [b] p (List.length (b :: c))) as H.
  cbn [hexDigits chrDigits position linePosition hexText chrText
       List.length] in H.
  rewrite !append_nil_r in H. cbn [List.length] in Hmax.
  specialize (H eq_refl eq_refl eq_refl eq_refl ltac:(discriminate)
                ltac:(lia) Hp ltac:(lia) ltac:(lia)).
  cbn [append app] in *.
  destruct (foldBytes fileScale displayWidth false c _) as [st2 l2].
  cbn [fst snd app] in *. exact H.
Qed.

(** A chunk that ends inside a row of the grid, followed by another
    chunk: the last row of the first and the first row of the second
    are the two parts of one row of the two chunks taken together. *)
Lemma rowsFrom_split (n : nat) :
  forall (c1 : list byte) (p : Z) (c2 : list byte) (f1 f2 f : nat),
    (List.length c1 <= n)%nat ->
    c1 <> [] -> c2 <> [] ->
    (p + Z.of_nat (List.length c1)) mod displayWidth <> 0 ->
    (List.length c1 <= f1)%nat ->
    (List.length c2 <= f2)%nat ->
    (List.length c1 + List.length c2 <= f)%nat ->
    let p1 := p + Z.of_nat (List.length c1) in
    let bs2 := firstn (room displayWidth p1) c2 in
    exists (front : list Row) (a : Z) (bs1 : list byte) (back : list Row),
      rowsFrom f1 displayWidth p c1 = front ++ [(a, bs1)]
      /\ rowsFrom f2 displayWidth p1 c2 = (p1, bs2) :: back
      /\ rowsFrom f displayWidth p (c1 ++ c2)
         = front ++ (a, bs1 ++ bs2) :: back
      /\ List.concat (map snd front) ++ bs1 = c1
      /\ a + Z.of_nat (List.length bs1) = p1
      /\ (1 <= List.length bs1)%nat
      /\ (List.length bs1 + room displayWidth p1 = room displayWidth a)%nat.
Proof.
  induction n as [|n IH]; intros c1 p c2 f1 f2 f Hn Hc1 Hc2 Hmid Hf1 Hf2 Hf
    p1 bs2.
  - destruct c1; [contradiction | cbn [List.length] in Hn; lia].
  - assert (Hp1 : p1 = p + Z.of_nat (List.length c1)) by reflexivity.
    assert (Hmid1 : p1 mod displayWidth <> 0) by exact Hmid.
    clearbody p1.
    pose proof (room_bounds p) as [Hrb Hre].
    assert (Hl1 : (1 <= List.length c1)%nat)
      by (destruct c1; [contradiction | cbn [List.length]; lia]).
    assert (Hl2 : (1 <= List.length c2)%nat)
      by (destruct c2; [contradiction | cbn [List.length]; lia]).
    assert (Hc12 : c1 ++ c2 <> []) by (now destruct c1).
    rewrite (rowsFrom_step f1 p c1 Hc1 Hf1).
    rewrite (rowsFrom_step f p (c1 ++ c2) Hc12)
      by (rewrite length_app; lia).
    rewrite (rowsFrom_step f2 p1 c2 Hc2 Hf2).
    rewrite firstn_app, skipn_app.
    destruct (Nat.le_gt_cases (List.length c1) (room displayWidth p))
      as [Hle|Hgt].
    + (* the first chunk ends inside the row of [p] *)
      assert (Hlt : (List.length c1 < room displayWidth p)%nat).
      { destruct (Nat.eq_dec (List.length c1) (room displayWidth p)) as [E|E];
          [|lia].
        exfalso. apply Hmid. rewrite E. apply room_end. }
      pose proof (room_bounds p1) as [Hrb1 _].
      assert (Hnext : (room displayWidth p1
                       = room displayWidth p - List.length c1)%nat).
      { pose proof (room_next p (Z.of_nat (List.length c1)) ltac:(lia)) as H.
        rewrite <- Hp1 in H. lia. }
      rewrite firstn_all2, skipn_all2, rowsFrom_nil by lia.
      exists [], p, c1, (rowsFrom f2 displayWidth
                           (p1 + Z.of_nat (room displayWidth p1))
                           (skipn (room displayWidth p1) c2)).
      cbn [app map List.concat]. fold bs2. rewrite <- Hnext. fold bs2.
      repeat split; try lia.
      f_equal.
      replace (p + Z.of_nat (room displayWidth p))
        with (p1 + Z.of_nat (room displayWidth p1)) by lia.
      apply rowsFrom_fuel; rewrite length_skipn; lia.
    + (* the row of [p] is filled by the first chunk *)
      replace (room displayWidth p - List.length c1)%nat with O by lia.
      rewrite firstn_O, skipn_O, app_nil_r.
      assert (Hrest : skipn (room displayWidth p) c1 <> []).
      { intros E. apply (f_equal (@List.length byte)) in E.
        rewrite length_skipn in E. cbn [List.length] in E. lia. }
      assert (Hlen : List.length (skipn (room displayWidth p) c1)
                     = (List.length c1 - room displayWidth p)%nat)
        by apply length_skipn.
      destruct (IH (skipn (room displayWidth p) c1)
                  (p + Z.of_nat (room displayWidth p)) c2 f1 f2 f
                  ltac:(lia) Hrest Hc2
                  ltac:(rewrite Hlen;
                        replace (p + Z.of_nat (room displayWidth p)
                                 + Z.of_nat (List.length c1
                                             - room displayWidth p))
                          with p1 by lia;
                        exact Hmid1)
                  ltac:(lia) Hf2 ltac:(lia))
        as (front & a & bs1 & back & E1 & E2 & E12 & Hcat & Ha & Hb1 & Hfit).
      rewrite Hlen in *.
      replace (p + Z.of_nat (room displayWidth p)
               + Z.of_nat (List.length c1 - room displayWidth p))
        with p1 in * by lia.
      rewrite (rowsFrom_step f2 p1 c2 Hc2 Hf2) in E2.
      exists ((p, firstn (room displayWidth p) c1) :: front), a, bs1, back.
      rewrite E1, E12. cbn [app map List.concat snd].
      repeat split; try assumption.
      rewrite <- app_assoc, Hcat. apply firstn_skipn.
Qed.

End Grid.

Lemma chunkRows_nonempty (displayWidth p : Z) (c : list byte) :
  c <> [] ->
  chunkRows displayWidth p c = rowsFrom (List.length c) displayWidth p c.
Proof. intros Hc. destruct c; [contradiction | reflexivity]. Qed.


(** ** The address field *)

Lemma digitsValue_snoc (ds : list Z) (x : Z) :
  digitsValue (ds ++ [x]) = 16 * digitsValue ds + x.
Proof.
  induction ds as [|d ds IH]; cbn [app digitsValue List.length].
  - cbn. lia.
  - rewrite IH, length_app. cbn [List.length].
    rewrite Nat.add_1_r, Nat2Z.inj_succ, Z.pow_succ_r by lia. lia.
Qed.

Lemma hexDigitsBE_value (k : nat) :
  forall v : Z, 0 <= v -> digitsValue (hexDigitsBE k v) = v mod 16 ^ Z.of_nat k.
Proof.
  induction k as [|k IH]; intros v Hv.
  - cbn [hexDigitsBE digitsValue Z.of_nat]. rewrite Z.pow_0_r, Z.mod_1_r.
    reflexivity.
  - cbn [hexDigitsBE]. rewrite digitsValue_snoc, IH
      by (apply Z.div_pos; lia).
    rewrite Nat2Z.inj_succ, Z.pow_succ_r by lia.
    rewrite Z.rem_mul_r by lia. lia.
Qed.

Lemma hexDigitsBE_range (k : nat) :
  forall v : Z, Forall (fun d => 0 <= d < 16) (hexDigitsBE k v).
Proof.
  induction k as [|k IH]; intros v; cbn [hexDigitsBE]; [constructor|].
  apply Forall_app. split; [apply IH|].
  constructor; [apply Z.mod_pos_bound; lia | constructor].
Qed.

Lemma length_hexDigitsBE (k : nat) (v : Z) :
  List.length (hexDigitsBE k v) = k.
Proof.
  revert v. induction k as [|k IH]; intros v; cbn [hexDigitsBE];
    [reflexivity|].
  rewrite length_app, IH. cbn [List.length]. lia.
Qed.

Lemma significant_value (prec : nat) (ds : list Z) :
  digitsValue (significant prec ds) = digitsValue ds.
Proof.
  induction ds as [|d ds IH]; [reflexivity|].
  cbn [significant].
  destruct (Z.eqb_spec d 0) as [->|Hd]; cbn [andb]; [|reflexivity].
  destruct (Nat.ltb prec _); [|reflexivity].
  rewrite IH. cbn [digitsValue]. lia.
Qed.

Lemma significant_range (prec : nat) (ds : list Z) :
  Forall (fun d => 0 <= d < 16) ds ->
  Forall (fun d => 0 <= d < 16) (significant prec ds).
Proof.
  intros H. induction H as [|d ds Hd Hds IH]; [constructor|].
  cbn [significant]. destruct (_ && _); [exact IH | now constructor].
Qed.

Lemma digitsValue_nonneg (ds : list Z) :
  Forall (fun d => 0 <= d < 16) ds -> 0 <= digitsValue ds.
Proof.
  intros H. induction H as [|d ds Hd Hds IH]; cbn [digitsValue]; [lia|].
  pose proof (Z.pow_nonneg 16 (Z.of_nat (List.length ds)) ltac:(lia)). nia.
Qed.

(** A value that fits in [prec] digits is printed with [prec] digits;
    no value is printed with fewer. *)
Lemma length_significant (prec : nat) (ds : list Z) :
  Forall (fun d => 0 <= d < 16) ds ->
  (prec <= List.length ds)%nat ->
  (prec <= List.length (significant prec ds))%nat
  /\ (digitsValue ds < 16 ^ Z.of_nat prec ->
      List.length (significant prec ds) = prec).
Proof.
  intros H. induction H as [|d ds Hd Hds IH]; intros Hlen.
  - cbn in *. split; [lia | intros _; lia].
  - cbn [significant].
    destruct (Nat.ltb_spec prec (List.length (d :: ds))) as [Hlt|Hge].
    + cbn [List.length] in Hlt.
      destruct (Z.eqb_spec d 0) as [->|Hnz]; cbn [andb].
      * destruct (IH ltac:(lia)) as [IH1 IH2]. split; [exact IH1|].
        intros Hv. apply IH2. cbn [digitsValue] in Hv. lia.
      * split; [exact Hlen|]. intros Hv. exfalso.
        cbn [digitsValue] in Hv.
        pose proof (digitsValue_nonneg ds Hds) as Hnn.
        assert (Hpow : 16 ^ Z.of_nat prec <= 16 ^ Z.of_nat (List.length ds))
          by (apply Z.pow_le_mono_r; lia).
        nia.
    + rewrite andb_false_r. split; [exact Hlen|]. intros _. lia.
Qed.

Lemma upperValue_digitChar (d : Z) :
  0 <= d < 16 -> upperValue (digitChar upperDigits d) = d.
Proof.
  intros Hd.
  assert (H : In d [0; 1; 2; 3; 4; 5; 6; 7; 8; 9; 10; 11; 12; 13; 14; 15])
    by (cbn [In]; lia).
  cbn [In] in H.
  repeat (destruct H as [<-|H]; [reflexivity|]). contradiction.
Qed.

Lemma length_string_of_list_ascii (l : list ascii) :
  String.length (string_of_list_ascii l) = List.length l.
Proof.
  induction l as [|c l IH]; cbn; [reflexivity | now rewrite IH].
Qed.

(** The address field reads back as the offset and has at least the
    digits of the format, exactly that many when the offset fits. *)
Lemma sprintfHexUpper_address (f : HexFormat) (v : Z) :
  0 <= v < wrap64 ->
  addressValue (sprintfHexUpper f v) = v
  /\ (formatDigits f <= String.length (sprintfHexUpper f v))%nat
  /\ (v < 16 ^ Z.of_nat (formatDigits f) ->
      String.length (sprintfHexUpper f v) = formatDigits f).
Proof.
  intros Hv. unfold addressValue, sprintfHexUpper.
  pose proof (hexDigitsBE_range 16 v) as Hr.
  pose proof (significant_range (formatDigits f) _ Hr) as Hs.
  assert (Hval : digitsValue (hexDigitsBE 16 v) = v).
  { rewrite hexDigitsBE_value by lia. apply Z.mod_small. exact Hv. }
  assert (Hlen : (formatDigits f <= List.length (hexDigitsBE 16 v))%nat)
    by (rewrite length_hexDigitsBE; destruct f; cbn; lia).
  destruct (length_significant (formatDigits f) _ Hr Hlen) as [L1 L2].
  rewrite list_ascii_of_string_of_list_ascii, map_map.
  rewrite length_string_of_list_ascii, length_map.
  repeat split.
  - transitivity
      (digitsValue (significant (formatDigits f) (hexDigitsBE 16 v)));
      [|now rewrite significant_value].
    f_equal. etransitivity; [|apply map_id].
    apply map_ext_Forall. revert Hs. apply Forall_impl.
    intros d Hd. apply upperValue_digitChar. exact Hd.
  - exact L1.
  - intros Hfit. apply L2. rewrite Hval. exact Hfit.
Qed.

Lemma offsetsFrom_range (rows : list Row) :
  forall p : Z,
    offsetsFrom p rows -> Forall (fun r => 0 <= fst r < wrap64) rows.
Proof.
  induction rows as [|r rows IH]; intros p H; [constructor|].
  destruct H as [Hr Hrest]. constructor.
  - rewrite Hr. apply uint64_range.
  - eapply IH. exact Hrest.
Qed.

(** C2, as stated, fails on its own example: the line that [main]
    prints for the four bytes on standard input has a space before
    each value, also the first, and two spaces before the second
    colon; it is one character longer than the line of the stated
    format. *)
Lemma printed_line_differs_from_stated_format :
  stdout (snd (main false false [] noFiles
                 [mkRead [x41; x42; x0a; xff] None] (mkWorld [] [])))
  = [("0000000000000000" ++ " : " ++ " 41 42 0a ff" ++ spaces 36
      ++ "  : " ++ "AB.." ++ LF)%string]
  /\ specLine hex64Bits normalWidth 0 [x41; x42; x0a; xff]
     = ("0000000000000000" ++ " : " ++ "41 42 0a ff" ++ spaces 37
        ++ " : " ++ "AB.." ++ LF)%string
  /\ stdout (snd (main false false [] noFiles
                    [mkRead [x41; x42; x0a; xff] None] (mkWorld [] [])))
     <> [specLine hex64Bits normalWidth 0 [x41; x42; x0a; xff]]
  /\ map String.length
         (stdout (snd (main false false [] noFiles
                         [mkRead [x41; x42; x0a; xff] None]
                         (mkWorld [] []))))
     = [76%nat]
  /\ String.length (specLine hex64Bits normalWidth 0 [x41; x42; x0a; xff])
     = 75%nat.
Proof.
  repeat split; try (vm_compute; reflexivity).
  vm_compute. discriminate.
Qed.

(** C2, amended.  Every line of a call is
    [<address> : <hex column>  : <ascii column>] and a newline, with
    two spaces before the second colon.  The address is the offset of
    the first byte of the row, in upper-case hexadecimal with at least
    the digits of the address scale, exactly that many when the offset
    fits.  The hexadecimal column has, for every byte of the row, a
    space and the two lower-case digits of the byte, and is filled with
    spaces to three times the display width.  The ASCII column has one
    character for every byte.  For the four bytes 41 42 0a ff on
    standard input at the default width [main] prints one line: the
    address of 16 zeros, the column [ 41 42 0a ff] filled to 48
    characters, and [AB..]. *)
Theorem output_line_format (fileScale : HexFormat) (displayWidth : Z)
    (buffer : list byte) (n p : Z) (w : World) (fs : FileSystem) :
  supportedWidth displayWidth ->
  0 <= n <= Z.of_nat (List.length buffer) ->
  0 <= p < wrap64 ->
  (exists (w' : World) (rows : list Row),
     formatBuffer buffer n fileScale p displayWidth w
     = (Ok (uint64 (p + n)), w')
     /\ stdout w' = stdout w ++ map (rowLine fileScale displayWidth) rows
     /\ stderr w' = stderr w
     /\ List.concat (map snd rows) = firstn (Z.to_nat n) buffer
     /\ offsetsFrom p rows
     /\ Forall
          (fun r =>
             rowLine fileScale displayWidth r
             = (sprintfHexUpper fileScale (fst r) ++ " : "
                ++ padRight (Z.to_nat (3 * displayWidth)) (hexText (snd r))
                ++ "  : " ++ chrText (snd r) ++ LF)%string
             /\ addressValue (sprintfHexUpper fileScale (fst r)) = fst r
             /\ (formatDigits fileScale
                 <= String.length (sprintfHexUpper fileScale (fst r)))%nat
             /\ (fst r < 16 ^ Z.of_nat (formatDigits fileScale) ->
                 String.length (sprintfHexUpper fileScale (fst r))
                 = formatDigits fileScale)
             /\ String.length
                  (padRight (Z.to_nat (3 * displayWidth)) (hexText (snd r)))
                = Z.to_nat (3 * displayWidth)
             /\ String.length (hexText (snd r))
                = (3 * List.length (snd r))%nat
             /\ String.length (chrText (snd r)) = List.length (snd r)
             /\ Z.of_nat (List.length (snd r)) <= displayWidth)
          rows)
  /\ hexText [x41; x42; x0a; xff] = " 41 42 0a ff"%string
  /\ chrText [x41; x42; x0a; xff] = "AB.."%string
  /\ stdout (snd (main false false [] fs
                    [mkRead [x41; x42; x0a; xff] None] (mkWorld [] [])))
     = [("0000000000000000" ++ " : " ++ " 41 42 0a ff" ++ spaces 36
         ++ "  : " ++ "AB.." ++ LF)%string].
Proof.
  intros HW Hn Hp. apply supportedWidth_ok in HW.
  split; [|split; [reflexivity | split; [reflexivity|]]].
  - destruct (formatBuffer_rows fileScale displayWidth HW buffer n p w Hn Hp)
      as (w' & rows & E & [Hout Herr] & Hcat & Hoff & Hshort).
    exists w', rows. repeat split; try assumption.
    pose proof (offsetsFrom_range rows p Hoff) as Hrange.
    rewrite Forall_forall in *. intros r Hr.
    specialize (Hshort r Hr). specialize (Hrange r Hr).
    unfold shortRow in Hshort.
    destruct (sprintfHexUpper_address fileScale (fst r) Hrange)
      as (A1 & A2 & A3).
    repeat split; try assumption.
    + apply length_padRight. rewrite length_hexText. lia.
    + apply length_hexText.
    + apply length_chrText.
  - vm_compute. reflexivity.
Qed.

Lemma output_line_format_witness :
  (exists (w' : World) (rows : list Row),
     formatBuffer [x41; x42; x0a; xff] 4 hex64Bits 0 16 (mkWorld [] [])
     = (Ok (uint64 (0 + 4)), w')
     /\ stdout w' = [] ++ map (rowLine hex64Bits 16) rows
     /\ stderr w' = []
     /\ List.concat (map snd rows) = firstn (Z.to_nat 4) [x41; x42; x0a; xff]
     /\ offsetsFrom 0 rows
     /\ Forall
          (fun r =>
             rowLine hex64Bits 16 r
             = (sprintfHexUpper hex64Bits (fst r) ++ " : "
                ++ padRight (Z.to_nat (3 * 16)) (hexText (snd r))
                ++ "  : " ++ chrText (snd r) ++ LF)%string
             /\ addressValue (sprintfHexUpper hex64Bits (fst r)) = fst r
             /\ (formatDigits hex64Bits
                 <= String.length (sprintfHexUpper hex64Bits (fst r)))%nat
             /\ (fst r < 16 ^ Z.of_nat (formatDigits hex64Bits) ->
                 String.length (sprintfHexUpper hex64Bits (fst r))
                 = formatDigits hex64Bits)
             /\ String.length
                  (padRight (Z.to_nat (3 * 16)) (hexText (snd r)))
                = Z.to_nat (3 * 16)
             /\ String.length (hexText (snd r))
                = (3 * List.length (snd r))%nat
             /\ String.length (chrText (snd r)) = List.length (snd r)
             /\ Z.of_nat (List.length (snd r)) <= 16)
          rows)
  /\ hexText [x41; x42; x0a; xff] = " 41 42 0a ff"%string
  /\ chrText [x41; x42; x0a; xff] = "AB.."%string
  /\ stdout (snd (main false false [] noFiles
                    [mkRead [x41; x42; x0a; xff] None] (mkWorld [] [])))
     = [("0000000000000000" ++ " : " ++ " 41 42 0a ff" ++ spaces 36
         ++ "  : " ++ "AB.." ++ LF)%string].
Proof.
  apply (output_line_format hex64Bits 16 [x41; x42; x0a; xff] 4 0
           (mkWorld [] []) noFiles).
  - left. reflexivity.
  - cbn [List.length]. lia.
  - unfold wrap64. lia.
Defined.

(** * Further properties of the code *)

(** ** [main]: the exit status *)

(** X1.  Once [flag.Parse] has accepted the command line, with the
    values [wide] and [extraWide] of the two flags: [main] ends with
    status 1 when both are set; it then has written the usage message
    to the error channel and nothing else, whatever the arguments, the
    files and standard input are.  When they are not both set it ends
    with status 0, also when paths are rejected or reads fail. *)
Theorem main_exit_status (wide extraWide : bool) (args : list string)
    (fs : FileSystem) (stdin : File) (w : World) :
  exitStatus (main wide extraWide args fs stdin w)
  = (if wide && extraWide then 1 else 0)
  /\ (if wide && extraWide
      then main wide extraWide args fs stdin w
           = (Abort 1, mkWorld (stdout w) (stderr w ++ [usageConflict]))
      else fst (main wide extraWide args fs stdin w) = Ok tt).
Proof.
  destruct (wide && extraWide) eqn:Hflags.
  - unfold main, bind. rewrite Hflags. split; reflexivity.
  - pose proof (supportedWidth_ok _ (selectedWidth_supported wide extraWide))
      as HW.
    assert (H : fst (main wide extraWide args fs stdin w) = Ok tt).
    { unfold main, bind. rewrite Hflags. cbn [ret].
      fold (selectedWidth wide extraWide).
      destruct (Z.of_nat (List.length args) =? 0).
      - destruct (hexdump_emits hex64Bits _ HW stdin w) as (w' & E & _).
        now rewrite E.
      - destruct (dumpFiles_emits fs _ args HW w) as (w' & E & _).
        now rewrite E. }
    split; [|exact H]. unfold exitStatus. now rewrite H.
Qed.

(** ** [formatBuffer]: counts and widths it cannot handle *)


(** ** [hexdump]: the buffer is used again for every read *)

Lemma world_eq (w1 w2 : World) :
  stdout w1 = stdout w2 -> stderr w1 = stderr w2 -> w1 = w2.
Proof. destruct w1, w2. cbn. now intros -> ->. Qed.

(** X4.  What the buffer holds behind the valid bytes, left there by
    an earlier and longer read, has no effect on a call: two buffers
    with the same first [n] bytes give the same lines and the same
    offset. *)
Theorem formatBuffer_ignores_stale_bytes (c junk junk' : list byte)
    (fileScale : HexFormat) (p displayWidth : Z) (w : World) :
  supportedWidth displayWidth ->
  0 <= p < wrap64 ->
  formatBuffer (c ++ junk) (Z.of_nat (List.length c)) fileScale p
    displayWidth w
  = formatBuffer (c ++ junk') (Z.of_nat (List.length c)) fileScale p
      displayWidth w.
Proof.
  intros HW Hp. apply supportedWidth_ok in HW.
  destruct (formatBuffer_callLines fileScale displayWidth HW c junk p w Hp)
    as (w1 & E1 & [O1 R1] & _).
  destruct (formatBuffer_callLines fileScale displayWidth HW c junk' p w Hp)
    as (w2 & E2 & [O2 R2] & _).
  rewrite E1, E2. f_equal. apply world_eq; congruence.
Qed.

Lemma formatBuffer_ignores_stale_bytes_witness :
  formatBuffer ([x41] ++ [x42; x43]) (Z.of_nat (List.length [x41]))
    hex16Bits 0 16 (mkWorld [] [])
  = formatBuffer ([x41] ++ [xff]) (Z.of_nat (List.length [x41]))
      hex16Bits 0 16 (mkWorld [] []).
Proof.
  apply (formatBuffer_ignores_stale_bytes [x41] [x42; x43] [xff] hex16Bits
           0 16 (mkWorld [] [])).
  - left. reflexivity.
  - unfold wrap64. lia.
Defined.

(** ** The rows of a call lie on the grid *)

Section GridRows.

Variable displayWidth : Z.
Hypothesis width_ok : 0 < displayWidth < wrap64.

Lemma room_aligned (p : Z) :
  p mod displayWidth = 0 -> Z.of_nat (room displayWidth p) = displayWidth.
Proof.
  intros Hz. destruct (room_bounds displayWidth width_ok p) as [_ ->]. lia.
Qed.

Lemma Forall_removelast {A : Type} (P : A -> Prop) (l : list A) :
  Forall P l -> Forall P (removelast l).
Proof.
  intros H. induction H as [|x l Hx Hl IH]; [constructor|].
  cbn [removelast]. destruct l; [constructor | now constructor].
Qed.

(** Every row has bytes and stays within its row of the grid; every
    row after the first starts at a multiple of the width, also the
    first when the chunk starts at one; every row before the last
    fills its row of the grid. *)
Lemma rowsFrom_grid (fuel : nat) :
  forall (p : Z) (c : list byte),
    (List.length c <= fuel)%nat ->
    Forall (fun r => (1 <= List.length (snd r) <= room displayWidth (fst r))%nat)
           (rowsFrom fuel displayWidth p c)
    /\ Forall (fun r => fst r mod displayWidth = 0)
              (tl (rowsFrom fuel displayWidth p c))
    /\ (p mod displayWidth = 0 ->
        Forall (fun r => fst r mod displayWidth = 0)
               (rowsFrom fuel displayWidth p c))
    /\ Forall (fun r => List.length (snd r) = room displayWidth (fst r))
              (removelast (rowsFrom fuel displayWidth p c)).
Proof.
  induction fuel as [|fuel IH]; intros p c Hlen.
  - cbn. repeat split; constructor.
  - destruct c as [|b c]; [cbn; repeat split; constructor|].
    cbn [rowsFrom].
    pose proof (room_bounds displayWidth width_ok p) as [Hrb _].
    set (rest := rowsFrom fuel displayWidth
                   (p + Z.of_nat (room displayWidth p))
                   (skipn (room displayWidth p) (b :: c))).
    assert (Hrl : (List.length (skipn (room displayWidth p) (b :: c))
                   <= fuel)%nat)
      by (rewrite length_skipn; cbn [List.length] in *; lia).
    destruct (IH (p + Z.of_nat (room displayWidth p))
                (skipn (room displayWidth p) (b :: c)) Hrl)
      as (I1 & I2 & I3 & I4).
    fold rest in I1, I2, I3, I4.
    specialize (I3 (room_end displayWidth width_ok p)).
    assert (Hfirst : (1 <= List.length (firstn (room displayWidth p) (b :: c))
                      <= room displayWidth p)%nat)
      by (rewrite length_firstn; cbn [List.length]; lia).
    cbn [tl]. repeat split.
    + constructor; [exact Hfirst | exact I1].
    + exact I3.
    + intros Hz. constructor; [exact Hz | exact I3].
    + cbn [removelast].
      destruct rest as [|r rest'] eqn:Er; [constructor|].
      constructor; [|exact I4]. cbn [fst snd].
      rewrite length_firstn.
      destruct (Nat.le_gt_cases (room displayWidth p) (List.length (b :: c)))
        as [Hle|Hgt]; [lia|].
      exfalso. unfold rest in Er. rewrite skipn_all2 in Er by lia.
      rewrite rowsFrom_nil in Er by exact width_ok. discriminate.
Qed.

(** Chunks that meet at a multiple of the width fall into the rows of
    the two chunks taken together. *)
Lemma rowsFrom_aligned_app (n : nat) :
  forall (c1 : list byte) (p : Z) (c2 : list byte) (f1 f2 f : nat),
    (List.length c1 <= n)%nat ->
    c1 <> [] ->
    (p + Z.of_nat (List.length c1)) mod displayWidth = 0 ->
    (List.length c1 <= f1)%nat ->
    (List.length c2 <= f2)%nat ->
    (List.length c1 + List.length c2 <= f)%nat ->
    rowsFrom f displayWidth p (c1 ++ c2)
    = rowsFrom f1 displayWidth p c1
      ++ rowsFrom f2 displayWidth (p + Z.of_nat (List.length c1)) c2.
Proof.
  induction n as [|n IH]; intros c1 p c2 f1 f2 f Hn Hc1 Hend Hf1 Hf2 Hf.
  - destruct c1; [contradiction | cbn [List.length] in Hn; lia].
  - pose proof (room_bounds displayWidth width_ok p) as [Hrb _].
    assert (Hl1 : (1 <= List.length c1)%nat)
      by (destruct c1; [contradiction | cbn [List.length]; lia]).
    assert (Hge : (room displayWidth p <= List.length c1)%nat).
    { destruct (Nat.le_gt_cases (room displayWidth p) (List.length c1))
        as [H|H]; [exact H|].
      pose proof (room_inside displayWidth width_ok p
                    (Z.of_nat (List.length c1)) ltac:(lia) Hend). lia. }
    rewrite (rowsFrom_step displayWidth width_ok f1 p c1 Hc1 Hf1).
    rewrite (rowsFrom_step displayWidth width_ok f p (c1 ++ c2))
      by (try rewrite length_app; try lia; now destruct c1).
    rewrite firstn_app, skipn_app.
    replace (room displayWidth p - List.length c1)%nat with O by lia.
    rewrite firstn_O, skipn_O, app_nil_r.
    rewrite <- app_comm_cons. f_equal.
    destruct (Nat.eq_dec (room displayWidth p) (List.length c1)) as [E|E].
    + rewrite E, skipn_all, rowsFrom_nil by exact width_ok. cbn [app].
      apply rowsFrom_fuel; [exact width_ok | lia | lia].
    + assert (Hlen : List.length (skipn (room displayWidth p) c1)
                     = (List.length c1 - room displayWidth p)%nat)
        by apply length_skipn.
      assert (Hrest : skipn (room displayWidth p) c1 <> []).
      { intros H. rewrite H in Hlen. cbn [List.length] in Hlen. lia. }
      rewrite (IH (skipn (room displayWidth p) c1)
                 (p + Z.of_nat (room displayWidth p)) c2 f1 f2 f);
        try lia; try assumption.
      * rewrite Hlen. do 2 f_equal. lia.
      * rewrite Hlen.
        replace (p + Z.of_nat (room displayWidth p)
                 + Z.of_nat (List.length c1 - room displayWidth p))
          with (p + Z.of_nat (List.length c1)) by lia.
        exact Hend.
Qed.

(** The number of rows of a chunk at [p]. *)
Lemma length_rowsFrom (fuel : nat) :
  forall (p : Z) (c : list byte),
    (List.length c <= fuel)%nat ->
    c <> [] ->
    0 <= p ->
    Z.of_nat (List.length (rowsFrom fuel displayWidth p c))
    = (p mod displayWidth + Z.of_nat (List.length c) + displayWidth - 1)
      / displayWidth.
Proof.
  induction fuel as [|fuel IH]; intros p c Hlen Hc Hp.
  - destruct c; [contradiction | cbn [List.length] in Hlen; lia].
  - destruct c as [|b c]; [contradiction|].
    cbn [rowsFrom List.length].
    destruct (room_bounds displayWidth width_ok p) as [Hrb Hre].
    pose proof (Z.mod_pos_bound p displayWidth ltac:(lia)) as Hr.
    destruct (Nat.le_gt_cases (List.length (b :: c)) (room displayWidth p))
      as [Hle|Hgt].
    + rewrite skipn_all2, rowsFrom_nil by (exact width_ok || exact Hle).
      cbn [List.length] in *.
      match goal with |- ?l = _ => change l with 1 end.
      apply (Z.div_unique _ _ 1
        (p mod displayWidth + Z.of_nat (S (List.length c)) - 1)); lia.
    + assert (Hrest : skipn (room displayWidth p) (b :: c) <> []).
      { intros H. apply (f_equal (@List.length byte)) in H.
        rewrite length_skipn in H. cbn [List.length] in *. lia. }
      rewrite Nat2Z.inj_succ, IH;
        [|rewrite length_skipn; cbn [List.length] in *; lia
         |exact Hrest | lia].
      rewrite (room_end displayWidth width_ok p), length_skipn.
      cbn [List.length] in *.
      replace (p mod displayWidth + Z.of_nat (S (List.length c))
               + displayWidth - 1)
        with (0 + Z.of_nat (S (List.length c) - room displayWidth p)
              + displayWidth - 1 + 1 * displayWidth) by lia.
      rewrite Z.div_add by lia. lia.
Qed.

End GridRows.

Lemma rowsFrom_concat (displayWidth : Z) (fuel : nat) :
  0 < displayWidth < wrap64 ->
  forall (p : Z) (c : list byte),
    (List.length c <= fuel)%nat ->
    List.concat (map snd (rowsFrom fuel displayWidth p c)) = c.
Proof.
  intros HW. induction fuel as [|fuel IH]; intros p c Hlen.
  - destruct c; [reflexivity | cbn [List.length] in Hlen; lia].
  - destruct c as [|b c]; [reflexivity|].
    cbn [rowsFrom map List.concat snd].
    pose proof (room_bounds displayWidth HW p) as [Hrb _].
    rewrite IH by (rewrite length_skipn; cbn [List.length] in *; lia).
    apply firstn_skipn.
Qed.

Lemma tl_removelast {A : Type} (l : list A) :
  tl (removelast l) = removelast (tl l).
Proof. destruct l as [|x [|y l]]; reflexivity. Qed.

Lemma Forall_tl {A : Type} (P : A -> Prop) (l : list A) :
  Forall P l -> Forall P (tl l).
Proof. intros H. destruct H; [constructor | assumption]. Qed.

(** A call on a chunk with bytes, without wrap of the offset, prints
    the rows of the grid. *)
Lemma formatBuffer_grid (fileScale : HexFormat) (displayWidth : Z)
    (c junk : list byte) (p : Z) (w : World) :
  0 < displayWidth < wrap64 ->
  c <> [] ->
  0 <= p ->
  p + Z.of_nat (List.length c) <= wrap64 ->
  exists w',
    formatBuffer (c ++ junk) (Z.of_nat (List.length c)) fileScale p
      displayWidth w
    = (Ok (uint64 (p + Z.of_nat (List.length c))), w')
    /\ emits w w'
         (map (rowLine fileScale displayWidth)
              (rowsFrom (List.length c) displayWidth p c)).
Proof.
  intros HW Hc Hp Hmax.
  assert (Hl : (1 <= List.length c)%nat)
    by (destruct c; [contradiction | cbn [List.length]; lia]).
  destruct (formatBuffer_callLines fileScale displayWidth HW c junk p w
              ltac:(lia)) as (w' & E & Em & _).
  rewrite (callLines_chunkRows fileScale displayWidth HW c p) in Em by lia.
  rewrite chunkRows_nonempty in Em by exact Hc.
  exists w'. split; assumption.
Qed.


(** X6.  Two consecutive calls that meet at a multiple of the display
    width print the lines of a single call on the two chunks, and
    reach the same offset: reads of [bufferSize] bytes, a multiple
    of every supported width, leave no trace in the dump. *)
Theorem aligned_calls_print_as_one (fileScale : HexFormat) (displayWidth : Z)
    (c1 c2 junk1 junk2 junk : list byte) (p : Z) (w : World) :
  supportedWidth displayWidth ->
  c1 <> [] -> c2 <> [] ->
  0 <= p ->
  p + Z.of_nat (List.length c1) + Z.of_nat (List.length c2) <= wrap64 ->
  (p + Z.of_nat (List.length c1)) mod displayWidth = 0 ->
  exists (p1 p2 : Z) (w1 w2 : World),
    formatBuffer (c1 ++ junk1) (Z.of_nat (List.length c1)) fileScale p
      displayWidth w = (Ok p1, w1)
    /\ formatBuffer (c2 ++ junk2) (Z.of_nat (List.length c2)) fileScale p1
         displayWidth w1 = (Ok p2, w2)
    /\ formatBuffer ((c1 ++ c2) ++ junk)
         (Z.of_nat (List.length (c1 ++ c2))) fileScale p displayWidth w
       = (Ok p2, w2)
    /\ bufferSize mod displayWidth = 0.
Proof.
  intros HS Hc1 Hc2 Hp Hmax Hend.
  pose proof (supportedWidth_ok _ HS) as HW.
  assert (Hl1 : (1 <= List.length c1)%nat)
    by (destruct c1; [contradiction | cbn [List.length]; lia]).
  assert (Hl2 : (1 <= List.length c2)%nat)
    by (destruct c2; [contradiction | cbn [List.length]; lia]).
  destruct (formatBuffer_grid fileScale displayWidth c1 junk1 p w HW Hc1 Hp
              ltac:(lia)) as (w1 & E1 & [O1 R1]).
  rewrite (uint64_small (p + Z.of_nat (List.length c1))) in E1 by lia.
  destruct (formatBuffer_grid fileScale displayWidth c2 junk2
              (p + Z.of_nat (List.length c1)) w1 HW Hc2 ltac:(lia) ltac:(lia))
    as (w2 & E2 & [O2 R2]).
  destruct (formatBuffer_grid fileScale displayWidth (c1 ++ c2) junk p w HW
              ltac:(now destruct c1) Hp ltac:(rewrite length_app; lia))
    as (w12 & E12 & [O12 R12]).
  exists (p + Z.of_nat (List.length c1)),
         (uint64 (p + Z.of_nat (List.length c1) + Z.of_nat (List.length c2))),
         w1, w2.
  split; [exact E1|]. split; [exact E2|]. split.
  - rewrite E12. f_equal.
    + do 2 f_equal. rewrite length_app. lia.
    + apply world_eq; [|congruence].
      rewrite O12, O2, O1, <- app_assoc, <- map_app. do 2 f_equal.
      apply (rowsFrom_aligned_app displayWidth HW (List.length c1));
        try rewrite length_app; try lia; assumption.
  - unfold supportedWidth in HS. cbn [In] in HS.
    destruct HS as [<-|[<-|[<-|[]]]]; reflexivity.
Qed.

Lemma aligned_calls_print_as_one_witness :
  exists (p1 p2 : Z) (w1 w2 : World),
    formatBuffer (repeat x41 16 ++ []) (Z.of_nat (List.length (repeat x41 16)))
      hex16Bits 0 16 (mkWorld [] []) = (Ok p1, w1)
    /\ formatBuffer ([x42] ++ repeat x41 15) (Z.of_nat (List.length [x42]))
         hex16Bits p1 16 w1 = (Ok p2, w2)
    /\ formatBuffer ((repeat x41 16 ++ [x42]) ++ [])
         (Z.of_nat (List.length (repeat x41 16 ++ [x42]))) hex16Bits 0 16
         (mkWorld [] [])
       = (Ok p2, w2)
    /\ bufferSize mod 16 = 0.
Proof.
  apply (aligned_calls_print_as_one hex16Bits 16 (repeat x41 16) [x42] []
           (repeat x41 15) [] 0 (mkWorld [] [])).
  - left. reflexivity.
  - discriminate.
  - discriminate.
  - lia.
  - vm_compute. discriminate.
  - reflexivity.
Defined.

(** X7.  A call on [n >= 1] bytes at offset [p] prints
    [(p mod displayWidth + n + displayWidth - 1) / displayWidth]
    lines: the number of rows of the grid that the bytes touch. *)
Theorem formatBuffer_line_count (fileScale : HexFormat) (displayWidth : Z)
    (c junk : list byte) (p : Z) (w : World) :
  supportedWidth displayWidth ->
  c <> [] ->
  0 <= p ->
  p + Z.of_nat (List.length c) <= wrap64 ->
  exists (w' : World) (lines : list string),
    formatBuffer (c ++ junk) (Z.of_nat (List.length c)) fileScale p
      displayWidth w
    = (Ok (uint64 (p + Z.of_nat (List.length c))), w')
    /\ stdout w' = stdout w ++ lines
    /\ Z.of_nat (List.length lines)
       = (p mod displayWidth + Z.of_nat (List.length c) + displayWidth - 1)
         / displayWidth.
Proof.
  intros HW Hc Hp Hmax. apply supportedWidth_ok in HW.
  destruct (formatBuffer_grid fileScale displayWidth c junk p w HW Hc Hp Hmax)
    as (w' & E & [Hout _]).
  eexists. eexists. split; [exact E|]. split; [exact Hout|].
  rewrite length_map.
  apply (length_rowsFrom displayWidth HW); [lia | exact Hc | exact Hp].
Qed.

Lemma formatBuffer_line_count_witness :
  exists (w' : World) (lines : list string),
    formatBuffer ([x41; x42; x0a; xff] ++ [])
      (Z.of_nat (List.length [x41; x42; x0a; xff])) hex16Bits 14 16
      (mkWorld [] [])
    = (Ok (uint64 (14 + Z.of_nat (List.length [x41; x42; x0a; xff]))), w')
    /\ stdout w' = [] ++ lines
    /\ Z.of_nat (List.length lines)
       = (14 mod 16 + Z.of_nat (List.length [x41; x42; x0a; xff]) + 16 - 1)
         / 16.
Proof.
  apply (formatBuffer_line_count hex16Bits 16 [x41; x42; x0a; xff] [] 14
           (mkWorld [] [])).
  - left. reflexivity.
  - discriminate.
  - lia.
  - vm_compute. discriminate.
Defined.

(** ** The addresses of a dump *)

Lemma addressField_digits (ds : list Z) (x : string) :
  addressField
    (string_of_list_ascii (map (digitChar upperDigits) ds) ++ " : " ++ x)
  = string_of_list_ascii (map (digitChar upperDigits) ds).
Proof.
  induction ds as [|d ds IH]; [reflexivity|].
  cbn [map string_of_list_ascii append addressField].
  rewrite digitChar_upper_no_space. f_equal. exact IH.
Qed.

Lemma lineAddress_rowLine (fileScale : HexFormat) (displayWidth : Z)
    (r : Row) :
  0 <= fst r < wrap64 ->
  lineAddress (rowLine fileScale displayWidth r) = fst r.
Proof.
  intros Hr. unfold lineAddress, rowLine, outputLine.
  unfold sprintfHexUpper at 1. rewrite addressField_digits.
  apply (sprintfHexUpper_address fileScale (fst r) Hr).
Qed.

Lemma offsetsFrom_congr (rows : list Row) :
  forall p q : Z,
    uint64 p = uint64 q -> offsetsFrom p rows -> offsetsFrom q rows.
Proof.
  induction rows as [|r rows IH]; intros p q Hpq H; [exact I|].
  destruct H as [Hr Hrest]. split; [congruence|].
  apply (IH (p + Z.of_nat (List.length (snd r)))); [|exact Hrest].
  unfold uint64 in *.
  rewrite (Z.add_mod p), (Z.add_mod q), Hpq by (unfold wrap64; lia).
  reflexivity.
Qed.

Lemma rowsLength_cons (r : Row) (rows : list Row) :
  rowsLength (r :: rows) = Z.of_nat (List.length (snd r)) + rowsLength rows.
Proof.
  unfold rowsLength. cbn [map List.concat]. rewrite length_app. lia.
Qed.

Lemma offsetsFrom_app (r1 : list Row) :
  forall (p : Z) (r2 : list Row),
    offsetsFrom p r1 -> offsetsFrom (p + rowsLength r1) r2 ->
    offsetsFrom p (r1 ++ r2).
Proof.
  induction r1 as [|r r1 IH]; intros p r2 H1 H2.
  - cbn [app]. unfold rowsLength in H2. cbn in H2.
    now rewrite Z.add_0_r in H2.
  - destruct H1 as [Hr Hrest]. cbn [app offsetsFrom]. split; [exact Hr|].
    apply IH; [exact Hrest|]. rewrite rowsLength_cons in H2.
    now rewrite <- Z.add_assoc.
Qed.

Lemma offsetsFrom_middle (rb : list Row) :
  forall (p : Z) (r : Row) (ra : list Row),
    offsetsFrom p (rb ++ r :: ra) -> fst r = uint64 (p + rowsLength rb).
Proof.
  induction rb as [|r0 rb IH]; intros p r ra H.
  - destruct H as [Hr _]. unfold rowsLength. cbn. now rewrite Z.add_0_r.
  - destruct H as [_ Hrest]. rewrite (IH _ r ra Hrest), rowsLength_cons.
    f_equal. lia.
Qed.

Lemma dumpLines_rows (fileScale : HexFormat) (displayWidth : Z)
    (chunks : list (list byte)) :
  0 < displayWidth < wrap64 ->
  forall p : Z,
    0 <= p < wrap64 ->
    exists rows : list Row,
      dumpLines fileScale displayWidth p chunks
      = map (rowLine fileScale displayWidth) rows
      /\ List.concat (map snd rows) = List.concat chunks
      /\ offsetsFrom p rows.
Proof.
  intros HW. induction chunks as [|c chunks IH]; intros p Hp.
  - exists []. now repeat split.
  - destruct (formatBuffer_callLines fileScale displayWidth HW c [] p
                (mkWorld [] []) Hp)
      as (_ & _ & _ & rows1 & Hcall & Hcat & Hoff & _).
    destruct (IH (uint64 (p + Z.of_nat (List.length c))) (uint64_range _))
      as (rows2 & Hd & Hcat2 & Hoff2).
    exists (rows1 ++ rows2). cbn [dumpLines List.concat].
    split; [now rewrite Hcall, Hd, map_app|].
    split.
    { rewrite map_app, List.concat_app. f_equal; [exact Hcat | exact Hcat2]. }
    apply offsetsFrom_app; [exact Hoff|].
    apply (offsetsFrom_congr rows2 (uint64 (p + Z.of_nat (List.length c))));
      [|exact Hoff2].
    unfold rowsLength.
    replace (List.concat (map snd rows1)) with c by (symmetry; exact Hcat).
    unfold uint64. apply Z.mod_mod. unfold wrap64. lia.
Qed.

(** X8.  Read back from the printed text, the address of every line
    of a dump is the number of bytes shown on the lines before it,
    modulo [2^64], however the stream was cut into reads: the offset
    is carried from each call of [formatBuffer] to the next. *)
Theorem hexdump_addresses_count_bytes (fileScale : HexFormat)
    (displayWidth : Z) (chunks : list (list byte)) (w : World) :
  supportedWidth displayWidth ->
  exists (w' : World) (lines : list string),
    hexdump (readsOf chunks) fileScale displayWidth w = (Ok tt, w')
    /\ stdout w' = stdout w ++ lines
    /\ forall (before : list string) (line : string) (after : list string),
         lines = before ++ line :: after ->
         lineAddress line
         = uint64 (Z.of_nat
                     (List.length (List.concat (map lineBytes before)))).
Proof.
  intros HW. apply supportedWidth_ok in HW.
  destruct (hexdump_emits fileScale displayWidth HW (readsOf chunks) w)
    as (w' & E & Hout & _).
  destruct (formatted_readsOf chunks) as [Hf Hr].
  rewrite Hf, Hr, app_nil_r in Hout.
  destruct (dumpLines_rows fileScale displayWidth chunks HW 0
              ltac:(split; [lia | reflexivity]))
    as (rows & Hrows & _ & Hoff).
  exists w', (dumpLines fileScale displayWidth 0 chunks).
  split; [exact E|]. split; [exact Hout|].
  intros before line after Hsplit. rewrite Hrows in Hsplit.
  apply map_eq_app in Hsplit as (rb & rr & -> & <- & Hrr).
  apply map_eq_cons in Hrr as (r & ra & -> & <- & _).
  pose proof (offsetsFrom_range _ _ Hoff) as Hrange.
  rewrite Forall_forall in Hrange.
  rewrite lineAddress_rowLine
    by (apply Hrange, in_or_app; right; now left).
  rewrite lineBytes_rows, (offsetsFrom_middle rb 0 r ra Hoff).
  reflexivity.
Qed.

Lemma hexdump_addresses_count_bytes_witness :
  exists (w' : World) (lines : list string),
    hexdump (readsOf [[x41; x42; x0a]; [xff]]) hex16Bits 16 (mkWorld [] [])
    = (Ok tt, w')
    /\ stdout w' = [] ++ lines
    /\ forall (before : list string) (line : string) (after : list string),
         lines = before ++ line :: after ->
         lineAddress line
         = uint64 (Z.of_nat
                     (List.length (List.concat (map lineBytes before)))).
Proof.
  apply (hexdump_addresses_count_bytes hex16Bits 16 [[x41; x42; x0a]; [xff]]
           (mkWorld [] [])).
  left. reflexivity.
Defined.


(** ** Lines and newlines *)

Lemma hasLF_app (a b : string) : hasLF (a ++ b) = hasLF a || hasLF b.
Proof.
  induction a as [|c a IH]; cbn [append hasLF]; [reflexivity|].
  now rewrite IH, orb_assoc.
Qed.

Lemma digitChar_upper_no_LF (d : Z) :
  Ascii.eqb (digitChar upperDigits d) "010" = false.
Proof.
  unfold digitChar. generalize (Z.to_nat d). intros n.
  do 16 (destruct n as [|n]; [reflexivity|]).
  destruct n; reflexivity.
Qed.

Lemma hasLF_sprintfHexUpper (f : HexFormat) (v : Z) :
  hasLF (sprintfHexUpper f v) = false.
Proof.
  unfold sprintfHexUpper.
  induction (significant (formatDigits f) (hexDigitsBE 16 v)) as [|d ds IH];
    [reflexivity|].
  cbn [map string_of_list_ascii hasLF].
  now rewrite digitChar_upper_no_LF, IH.
Qed.

Lemma hasLF_spaces (n : nat) : hasLF (spaces n) = false.
Proof. induction n as [|n IH]; [reflexivity | exact IH]. Qed.

Lemma hasLF_hexCell (b : byte) : hasLF (hexCell b) = false.
Proof. destruct b; reflexivity. Qed.

Lemma hasLF_chrCell (b : byte) : hasLF (chrCell b) = false.
Proof. destruct b; reflexivity. Qed.

Lemma hasLF_hexText (bs : list byte) : hasLF (hexText bs) = false.
Proof.
  induction bs as [|b bs IH]; [reflexivity|].
  cbn [hexText]. now rewrite hasLF_app, hasLF_hexCell, IH.
Qed.

Lemma hasLF_chrText (bs : list byte) : hasLF (chrText bs) = false.
Proof.
  induction bs as [|b bs IH]; [reflexivity|].
  cbn [chrText]. now rewrite hasLF_app, hasLF_chrCell, IH.
Qed.

Lemma rowLine_one_newline (fileScale : HexFormat) (displayWidth : Z)
    (r : Row) :
  exists body : string,
    rowLine fileScale displayWidth r = (body ++ LF)%string
    /\ hasLF body = false.
Proof.
  exists (sprintfHexUpper fileScale (fst r) ++ " : "
          ++ padRight (Z.to_nat (3 * displayWidth)) (hexText (snd r))
          ++ "  : " ++ chrText (snd r))%string.
  split.
  - unfold rowLine, outputLine. now rewrite !append_assoc.
  - unfold padRight.
    rewrite !hasLF_app, hasLF_sprintfHexUpper, hasLF_hexText, hasLF_spaces,
      hasLF_chrText.
    reflexivity.
Qed.

(** X10.  Every line that a call prints ends with a newline and has
    no other: a byte of the data, whatever its value, never breaks a
    line of the dump. *)
Theorem formatBuffer_lines_have_one_newline (buffer : list byte) (n : Z)
    (fileScale : HexFormat) (p displayWidth : Z) (w : World) :
  supportedWidth displayWidth ->
  0 <= n <= Z.of_nat (List.length buffer) ->
  0 <= p < wrap64 ->
  exists (w' : World) (lines : list string),
    formatBuffer buffer n fileScale p displayWidth w
    = (Ok (uint64 (p + n)), w')
    /\ stdout w' = stdout w ++ lines
    /\ Forall (fun line =>
                 exists body : string,
                   line = (body ++ LF)%string /\ hasLF body = false)
              lines.
Proof.
  intros HW Hn Hp. apply supportedWidth_ok in HW.
  destruct (formatBuffer_rows fileScale displayWidth HW buffer n p w Hn Hp)
    as (w' & rows & E & [Hout _] & _).
  exists w', (map (rowLine fileScale displayWidth) rows).
  split; [exact E|]. split; [exact Hout|].
  apply Forall_forall. intros line Hin.
  apply in_map_iff in Hin as (r & <- & _). apply rowLine_one_newline.
Qed.

Lemma formatBuffer_lines_have_one_newline_witness :
  exists (w' : World) (lines : list string),
    formatBuffer [x0a; x0d; x0a] 3 hex16Bits 0 16 (mkWorld [] [])
    = (Ok (uint64 (0 + 3)), w')
    /\ stdout w' = [] ++ lines
    /\ Forall (fun line =>
                 exists body : string,
                   line = (body ++ LF)%string /\ hasLF body = false)
              lines.
Proof.
  apply (formatBuffer_lines_have_one_newline [x0a; x0d; x0a] 3 hex16Bits 0 16
           (mkWorld [] [])).
  - left. reflexivity.
  - cbn [List.length]. lia.
  - unfold wrap64. lia.
Defined.

(** ** [main]: the dump of several files *)

Lemma fileStdout_bytes (fs : FileSystem) (displayWidth : Z) (file : string) :
  0 < displayWidth < wrap64 ->
  (forall fh sc, openRegularFile fs file = Opened fh sc -> reported fh = []) ->
  List.concat (map lineBytes (fileStdout fs displayWidth file))
  = fileBytes fs file.
Proof.
  intros HW Hrep. unfold fileStdout, fileBytes.
  destruct (openRegularFile fs file) as [fh sc|err]; [|reflexivity].
  rewrite (Hrep fh sc eq_refl), app_nil_r.
  apply (dumpLines_bytes sc displayWidth HW (formatted fh) 0).
  split; [lia | reflexivity].
Qed.

(** X11.  With the flags not in conflict, at least one argument, and
    no read error on the files that open, the hexadecimal columns of
    what [main] prints, taken in order, show the bytes of the accepted
    files in the order of the arguments, and nothing for the rejected
    paths. *)
Theorem main_dumps_files_in_order (wide extraWide : bool)
    (args : list string) (fs : FileSystem) (stdin : File) (w : World) :
  wide && extraWide = false ->
  args <> [] ->
  Forall (fun file =>
            forall fh sc,
              openRegularFile fs file = Opened fh sc -> reported fh = [])
         args ->
  exists (w' : World) (lines : list string),
    main wide extraWide args fs stdin w = (Ok tt, w')
    /\ stdout w' = stdout w ++ lines
    /\ List.concat (map lineBytes lines)
       = List.concat (map (fileBytes fs) args).
Proof.
  intros Hflags Hargs Hrep.
  pose proof (supportedWidth_ok _ (selectedWidth_supported wide extraWide))
    as HW.
  destruct (dumpFiles_emits fs _ args HW w) as (w' & E & Hout & _).
  exists w', (List.concat
                (map (fileStdout fs (selectedWidth wide extraWide)) args)).
  split; [|split; [exact Hout|]].
  - unfold main, bind. rewrite Hflags. cbn [ret].
    fold (selectedWidth wide extraWide).
    replace (Z.of_nat (List.length args) =? 0) with false; [exact E|].
    symmetry. apply Z.eqb_neq. destruct args; [contradiction|].
    cbn [List.length]. lia.
  - clear E Hout Hargs. induction Hrep as [|file rest Hfile _ IH];
      [reflexivity|].
    cbn [map List.concat].
    rewrite map_app, List.concat_app, IH.
    f_equal. apply fileStdout_bytes; assumption.
Qed.

Lemma main_dumps_files_in_order_witness :
  exists (w' : World) (lines : list string),
    main false false ["missing.bin"%string; "ok.bin"%string] oneFile []
      (mkWorld [] []) = (Ok tt, w')
    /\ stdout w' = [] ++ lines
    /\ List.concat (map lineBytes lines)
       = List.concat
           (map (fileBytes oneFile) ["missing.bin"%string; "ok.bin"%string]).
Proof.
  apply (main_dumps_files_in_order false false
           ["missing.bin"%string; "ok.bin"%string] oneFile []
           (mkWorld [] [])).
  - reflexivity.
  - discriminate.
  - repeat constructor; intros fh sc H; vm_compute in H;
      [discriminate | injection H as <- _; reflexivity].
Defined.

(** * Rows read back from the printed lines *)

Lemma rowLine_reads_back (fileScale : HexFormat) (displayWidth : Z)
    (a : Z) (bs : list byte) :
  0 <= a < wrap64 ->
  lineBytes (rowLine fileScale displayWidth (a, bs)) = bs
  /\ lineAddress (rowLine fileScale displayWidth (a, bs)) = a.
Proof.
  intros Ha. split.
  - apply (lineBytes_rowLine fileScale displayWidth (a, bs)).
  - apply (lineAddress_rowLine fileScale displayWidth (a, bs)). exact Ha.
Qed.

(** C3.  Two consecutive calls, the second starting where the first
    stopped, inside a row of the grid.  The first call prints what it
    has of that row as its last line: read back from the text, that
    line shows the bytes [bs1], the end of the first chunk.  The second
    call starts from empty accumulators: read back from the text, its
    first line has the offset [p1] of the first byte of that call as
    its address and shows bytes of that call only, [bs2].  Both lines
    are shorter than the display width, and together they are the one
    row, at the address of the first, that a single call on the two
    chunks prints. *)
Theorem row_split_across_calls (fileScale : HexFormat) (displayWidth : Z)
    (c1 c2 junk1 junk2 : list byte) (p : Z) (w : World) :
  supportedWidth displayWidth ->
  c1 <> [] -> c2 <> [] ->
  0 <= p ->
  p + Z.of_nat (List.length c1) + Z.of_nat (List.length c2) <= wrap64 ->
  (p + Z.of_nat (List.length c1)) mod displayWidth <> 0 ->
  let p1 := p + Z.of_nat (List.length c1) in
  exists (front : list Row) (a : Z) (bs1 bs2 : list byte) (back : list Row)
         (w1 w2 : World) (last1 first2 joined : string),
    formatBuffer (c1 ++ junk1) (Z.of_nat (List.length c1)) fileScale p
      displayWidth w = (Ok p1, w1)
    /\ stdout w1
       = stdout w ++ map (rowLine fileScale displayWidth) front ++ [last1]
    /\ formatBuffer (c2 ++ junk2) (Z.of_nat (List.length c2)) fileScale p1
         displayWidth w1
       = (Ok (uint64 (p1 + Z.of_nat (List.length c2))), w2)
    /\ stdout w2
       = stdout w1 ++ first2 :: map (rowLine fileScale displayWidth) back
    /\ last1 = rowLine fileScale displayWidth (a, bs1)
    /\ first2 = rowLine fileScale displayWidth (p1, bs2)
    /\ joined = rowLine fileScale displayWidth (a, bs1 ++ bs2)
    /\ lineBytes last1 = bs1
    /\ lineAddress last1 = a
    /\ lineBytes first2 = bs2
    /\ lineAddress first2 = p1
    /\ lineBytes joined = bs1 ++ bs2
    /\ lineAddress joined = a
    /\ List.concat
         (map lineBytes (map (rowLine fileScale displayWidth) front))
       ++ bs1 = c1
    /\ a + Z.of_nat (List.length bs1) = p1
    /\ bs2 = firstn (room displayWidth p1) c2
    /\ 1 <= Z.of_nat (List.length bs1) < displayWidth
    /\ 1 <= Z.of_nat (List.length bs2) < displayWidth
    /\ Z.of_nat (List.length bs1) + Z.of_nat (List.length bs2) <= displayWidth
    /\ callLines fileScale displayWidth (c1 ++ c2) p
       = map (rowLine fileScale displayWidth) front
         ++ joined :: map (rowLine fileScale displayWidth) back.
Proof.
  intros HW Hc1 Hc2 Hp Hmax Hmid p1. apply supportedWidth_ok in HW.
  assert (Hl1 : (1 <= List.length c1)%nat)
    by (destruct c1; [contradiction | cbn [List.length]; lia]).
  assert (Hl2 : (1 <= List.length c2)%nat)
    by (destruct c2; [contradiction | cbn [List.length]; lia]).
  assert (Hp1 : 0 <= p1 < wrap64) by (unfold p1; lia).
  destruct (formatBuffer_callLines fileScale displayWidth HW c1 junk1 p w
              ltac:(lia)) as (w1 & E1 & [O1 _] & _).
  destruct (formatBuffer_callLines fileScale displayWidth HW c2 junk2 p1 w1
              Hp1) as (w2 & E2 & [O2 _] & _).
  rewrite (uint64_small (p + Z.of_nat (List.length c1))) in E1 by lia.
  rewrite (callLines_chunkRows fileScale displayWidth HW c1 p) in O1 by lia.
  rewrite (callLines_chunkRows fileScale displayWidth HW c2 p1) in O2
    by (unfold p1; lia).
  rewrite (callLines_chunkRows fileScale displayWidth HW (c1 ++ c2) p)
    by (try rewrite length_app; lia).
  rewrite chunkRows_nonempty in O1 by exact Hc1.
  rewrite chunkRows_nonempty in O2 by exact Hc2.
  rewrite chunkRows_nonempty by (now destruct c1).
  destruct (rowsFrom_split displayWidth HW (List.length c1) c1 p c2
              (List.length c1) (List.length c2) (List.length (c1 ++ c2))
              (Nat.le_refl _) Hc1 Hc2 Hmid (Nat.le_refl _) (Nat.le_refl _)
              ltac:(rewrite length_app; lia))
    as (front & a & bs1 & back & R1 & R2 & R12 & Hcat & Ha & Hb1 & Hfit).
  fold p1 in R2, R12, Ha, Hfit.
  pose proof (room_bounds displayWidth HW p1) as [Hr1 _].
  pose proof (room_bounds displayWidth HW a) as [Hra _].
  assert (Hb2 : List.length (firstn (room displayWidth p1) c2)
                = Nat.min (room displayWidth p1) (List.length c2))
    by apply length_firstn.
  assert (Hb1len : (List.length bs1 <= List.length c1)%nat).
  { rewrite <- Hcat, length_app. lia. }
  assert (Har : 0 <= a < wrap64) by lia.
  destruct (rowLine_reads_back fileScale displayWidth a bs1 Har) as [B1 A1].
  destruct (rowLine_reads_back fileScale displayWidth p1
              (firstn (room displayWidth p1) c2) Hp1) as [B2 A2].
  destruct (rowLine_reads_back fileScale displayWidth a
              (bs1 ++ firstn (room displayWidth p1) c2) Har) as [B12 A12].
  exists front, a, bs1, (firstn (room displayWidth p1) c2), back, w1, w2,
    (rowLine fileScale displayWidth (a, bs1)),
    (rowLine fileScale displayWidth
       (p1, firstn (room displayWidth p1) c2)),
    (rowLine fileScale displayWidth
       (a, bs1 ++ firstn (room displayWidth p1) c2)).
  rewrite R1 in O1. rewrite R2 in O2. rewrite R12.
  rewrite map_app in O1. cbn [map] in O1, O2.
  rewrite map_app. cbn [map]. rewrite lineBytes_rows.
  repeat split; try assumption; try lia.
Qed.

Lemma row_split_across_calls_witness :
  exists (front : list Row) (a : Z) (bs1 bs2 : list byte) (back : list Row)
         (w1 w2 : World) (last1 first2 joined : string),
    formatBuffer ([x41; x42; x0a] ++ [x00]) 3 hex64Bits 0 16 (mkWorld [] [])
    = (Ok (0 + Z.of_nat (List.length [x41; x42; x0a])), w1)
    /\ stdout w1 = [] ++ map (rowLine hex64Bits 16) front ++ [last1]
    /\ formatBuffer ([xff] ++ [x42; x0a; x00]) 1 hex64Bits
         (0 + Z.of_nat (List.length [x41; x42; x0a])) 16 w1
       = (Ok (uint64 (0 + Z.of_nat (List.length [x41; x42; x0a]) + 1)), w2)
    /\ stdout w2 = stdout w1 ++ first2 :: map (rowLine hex64Bits 16) back
    /\ last1 = rowLine hex64Bits 16 (a, bs1)
    /\ first2
       = rowLine hex64Bits 16
           (0 + Z.of_nat (List.length [x41; x42; x0a]), bs2)
    /\ joined = rowLine hex64Bits 16 (a, bs1 ++ bs2)
    /\ lineBytes last1 = bs1
    /\ lineAddress last1 = a
    /\ lineBytes first2 = bs2
    /\ lineAddress first2 = 0 + Z.of_nat (List.length [x41; x42; x0a])
    /\ lineBytes joined = bs1 ++ bs2
    /\ lineAddress joined = a
    /\ List.concat (map lineBytes (map (rowLine hex64Bits 16) front)) ++ bs1
       = [x41; x42; x0a]
    /\ a + Z.of_nat (List.length bs1)
       = 0 + Z.of_nat (List.length [x41; x42; x0a])
    /\ bs2
       = firstn (room 16 (0 + Z.of_nat (List.length [x41; x42; x0a]))) [xff]
    /\ 1 <= Z.of_nat (List.length bs1) < 16
    /\ 1 <= Z.of_nat (List.length bs2) < 16
    /\ Z.of_nat (List.length bs1) + Z.of_nat (List.length bs2) <= 16
    /\ callLines hex64Bits 16 ([x41; x42; x0a] ++ [xff]) 0
       = map (rowLine hex64Bits 16) front
         ++ joined :: map (rowLine hex64Bits 16) back.
Proof.
  apply (row_split_across_calls hex64Bits 16 [x41; x42; x0a] [xff]
           [x00] [x42; x0a; x00] 0 (mkWorld [] [])).
  - left. reflexivity.
  - discriminate.
  - discriminate.
  - lia.
  - vm_compute. discriminate.
  - vm_compute. discriminate.
Defined.

(** * Reads without bytes *)







(** * Rejected paths *)

Lemma fileStdout_opened (fs : FileSystem) (displayWidth : Z) (file : string)
    (fh : File) (sc : HexFormat) :
  0 < displayWidth < wrap64 ->
  openRegularFile fs file = Opened fh sc ->
  fileStderr fs file = []
  /\ exists lines : list string,
       fileStdout fs displayWidth file = lines ++ reported fh
       /\ List.concat (map lineBytes lines) = List.concat (formatted fh).
Proof.
  intros HW Hopen. unfold fileStderr, fileStdout. rewrite Hopen.
  split; [reflexivity|].
  exists (dumpLines sc displayWidth 0 (formatted fh)).
  split; [reflexivity|].
  apply (dumpLines_bytes sc displayWidth HW (formatted fh) 0).
  split; [lia | reflexivity].
Qed.

(** C9.  With the flags not in conflict and a path that
    [openRegularFile] rejects among the arguments, [main] ends normally,
    with status 0, as it does without that path.  Every argument adds
    its own lines to the channels, in the order of the arguments.  The
    rejected path adds nothing to standard output and one entry to the
    error channel: an empty line, [Warning: Skipping file: ] with the
    text of the error, and a newline.  A path that opens adds nothing
    to the error channel, and its lines on standard output, read back
    from the text, show the bytes of its reads, so the paths after the
    rejected one are dumped.  A path is rejected when [os.Stat] fails,
    when it is not a regular file, and when [os.Open] fails.  For a
    path that does not exist followed by a file of the two bytes
    41 42, [main] prints the warning for the first and the line of the
    second. *)
Theorem rejected_path_is_skipped (wide extraWide : bool) (fs : FileSystem)
    (stdin : File) (before after : list string) (bad : string) (err : error)
    (w : World) :
  wide && extraWide = false ->
  openRegularFile fs bad = Rejected err ->
  (exists w',
     main wide extraWide (before ++ bad :: after) fs stdin w = (Ok tt, w')
     /\ stdout w'
        = stdout w
          ++ List.concat
               (map (fileStdout fs (selectedWidth wide extraWide)) before)
          ++ List.concat
               (map (fileStdout fs (selectedWidth wide extraWide)) after)
     /\ stderr w'
        = stderr w
          ++ List.concat (map (fileStderr fs) before)
          ++ [(LF ++ "Warning: Skipping file: " ++ errorText err ++ LF)%string]
          ++ List.concat (map (fileStderr fs) after))
  /\ exitStatus (main wide extraWide (before ++ bad :: after) fs stdin w) = 0
  /\ exitStatus (main wide extraWide (before ++ after) fs stdin w) = 0
  /\ (forall f e, osStat fs f = inr e -> openRegularFile fs f = Rejected e)
  /\ (forall f info,
        osStat fs f = inl info -> IsRegular info = false ->
        openRegularFile fs f
        = Rejected (Err ("open " ++ f ++ ": It's not a regular file")%string))
  /\ (forall f info e,
        osStat fs f = inl info -> IsRegular info = true ->
        osOpen fs f = inr e -> openRegularFile fs f = Rejected e)
  /\ (forall f e,
        openRegularFile fs f = Rejected e ->
        fileStdout fs (selectedWidth wide extraWide) f = []
        /\ fileStderr fs f
           = [(LF ++ "Warning: Skipping file: " ++ errorText e ++ LF)%string])
  /\ (forall f fh sc,
        openRegularFile fs f = Opened fh sc ->
        fileStderr fs f = []
        /\ exists lines : list string,
             fileStdout fs (selectedWidth wide extraWide) f
             = lines ++ reported fh
             /\ List.concat (map lineBytes lines)
                = List.concat (formatted fh))
  /\ main false false ["missing.bin"%string; "ok.bin"%string] oneFile stdin
       (mkWorld [] [])
     = (Ok tt,
        mkWorld
          [("0000" ++ " : " ++ " 41 42" ++ spaces 42 ++ "  : " ++ "AB"
            ++ LF)%string]
          [(LF ++ "Warning: Skipping file: "
            ++ "stat missing.bin: no such file or directory" ++ LF)%string]).
Proof.
  intros Hflags Hbad.
  pose proof (supportedWidth_ok _ (selectedWidth_supported wide extraWide))
    as HW.
  assert (Hmain : forall args : list string,
            exists w', main wide extraWide args fs stdin w = (Ok tt, w')
              /\ (args <> [] ->
                  dumpFiles fs (selectedWidth wide extraWide) args w
                  = (Ok tt, w'))).
  { intros args. unfold main, bind. rewrite Hflags. cbn [ret].
    fold (selectedWidth wide extraWide).
    destruct args as [|a args].
    - cbn [List.length Z.of_nat Z.eqb].
      destruct (hexdump_emits hex64Bits _ HW stdin w) as (w' & E & _).
      exists w'. split; [exact E | congruence].
    - destruct (dumpFiles_emits fs _ (a :: args) HW w) as (w' & E & _).
      exists w'.
      replace (Z.of_nat (List.length (a :: args)) =? 0) with false
        by (symmetry; apply Z.eqb_neq; cbn [List.length]; lia).
      split; [exact E | intros _; exact E]. }
  split; [|split; [|split; [|split; [|split; [|split; [|split;
    [|split]]]]]]].
  - destruct (Hmain (before ++ bad :: after)) as (w' & E & Hd).
    specialize (Hd ltac:(now destruct before)).
    destruct (dumpFiles_emits fs _ (before ++ bad :: after) HW w)
      as (w2 & E2 & O2 & R2).
    rewrite Hd in E2. injection E2 as <-.
    exists w'. split; [exact E|].
    rewrite O2, R2, !map_app, !List.concat_app. cbn [map List.concat].
    unfold fileStdout at 2. unfold fileStderr at 2. rewrite Hbad.
    cbn [app]. now split.
  - destruct (Hmain (before ++ bad :: after)) as (w' & E & _).
    unfold exitStatus. now rewrite E.
  - destruct (Hmain (before ++ after)) as (w' & E & _).
    unfold exitStatus. now rewrite E.
  - intros f e H. unfold openRegularFile. now rewrite H.
  - intros f info H1 H2. unfold openRegularFile. now rewrite H1, H2.
  - intros f info e H1 H2 H3. unfold openRegularFile. now rewrite H1, H2, H3.
  - intros f e H. unfold fileStdout, fileStderr. rewrite H. now split.
  - intros f fh sc H. exact (fileStdout_opened fs _ f fh sc HW H).
  - vm_compute. reflexivity.
Qed.

Lemma rejected_path_is_skipped_witness :
  (exists w',
     main false false ([] ++ "missing.bin"%string :: ["ok.bin"%string])
       oneFile [] (mkWorld [] []) = (Ok tt, w')
     /\ stdout w'
        = [] ++ List.concat
                  (map (fileStdout oneFile (selectedWidth false false)) [])
          ++ List.concat
               (map (fileStdout oneFile (selectedWidth false false))
                    ["ok.bin"%string])
     /\ stderr w'
        = [] ++ List.concat (map (fileStderr oneFile) [])
          ++ [(LF ++ "Warning: Skipping file: "
               ++ errorText
                    (Err "stat missing.bin: no such file or directory")
               ++ LF)%string]
          ++ List.concat (map (fileStderr oneFile) ["ok.bin"%string]))
  /\ exitStatus (main false false
                   ([] ++ "missing.bin"%string :: ["ok.bin"%string])
                   oneFile [] (mkWorld [] [])) = 0
  /\ exitStatus (main false false ([] ++ ["ok.bin"%string]) oneFile []
                   (mkWorld [] [])) = 0
  /\ (forall f e,
        osStat oneFile f = inr e -> openRegularFile oneFile f = Rejected e)
  /\ (forall f info,
        osStat oneFile f = inl info -> IsRegular info = false ->
        openRegularFile oneFile f
        = Rejected (Err ("open " ++ f ++ ": It's not a regular file")%string))
  /\ (forall f info e,
        osStat oneFile f = inl info -> IsRegular info = true ->
        osOpen oneFile f = inr e -> openRegularFile oneFile f = Rejected e)
  /\ (forall f e,
        openRegularFile oneFile f = Rejected e ->
        fileStdout oneFile (selectedWidth false false) f = []
        /\ fileStderr oneFile f
           = [(LF ++ "Warning: Skipping file: " ++ errorText e ++ LF)%string])
  /\ (forall f fh sc,
        openRegularFile oneFile f = Opened fh sc ->
        fileStderr oneFile f = []
        /\ exists lines : list string,
             fileStdout oneFile (selectedWidth false false) f
             = lines ++ reported fh
             /\ List.concat (map lineBytes lines)
                = List.concat (formatted fh))
  /\ main false false ["missing.bin"%string; "ok.bin"%string] oneFile []
       (mkWorld [] [])
     = (Ok tt,
        mkWorld
          [("0000" ++ " : " ++ " 41 42" ++ spaces 42 ++ "  : " ++ "AB"
            ++ LF)%string]
          [(LF ++ "Warning: Skipping file: "
            ++ "stat missing.bin: no such file or directory" ++ LF)%string]).
Proof.
  apply (rejected_path_is_skipped false false oneFile [] [] ["ok.bin"%string]
           "missing.bin"%string
           (Err "stat missing.bin: no such file or directory"%string)
           (mkWorld [] [])); reflexivity.
Defined.

(** * Counts and widths that [formatBuffer] cannot handle *)

Lemma skipn_nil_nth {A : Type} (n : nat) (l : list A) :
  skipn n l = [] -> nth_error l n = None.
Proof.
  intros H. apply nth_error_None.
  apply (f_equal (@List.length A)) in H. rewrite length_skipn in H.
  cbn [List.length] in H. lia.
Qed.

Lemma formatByte_out_of_range (buffer : list byte) (fileScale : HexFormat)
    (displayWidth i : Z) (st : Accum) (w : World) :
  nth_error buffer (Z.to_nat i) = None ->
  exists (w' : World) (extra : list string),
    formatByte buffer fileScale displayWidth i st w = (Abort 2, w')
    /\ stdout w' = stdout w ++ extra
    /\ (extra = []
        \/ extra = [outputLine fileScale displayWidth (linePosition st)
                      (hexDigits st) (chrDigits st)]).
Proof.
  intros Hb. unfold formatByte.
  destruct (uint64 displayWidth =? 0).
  - exists w, []. rewrite app_nil_r. repeat split. now left.
  - unfold bind.
    destruct ((position st mod uint64 displayWidth =? 0) && (0 <? i));
      cbn -[uint64 outputLine hexCell chrCell]; rewrite Hb.
    + eexists. eexists. split; [reflexivity|]. split; [reflexivity|].
      now right.
    + exists w, []. rewrite app_nil_r. repeat split. now left.
Qed.

(** The loop asked for more iterations than the buffer has bytes: it
    prints what the fold over the bytes flushes, perhaps the open row
    as well, and stops at the index behind the buffer. *)
Lemma formatLoop_overrun (buffer : list byte) (fileScale : HexFormat)
    (displayWidth : Z) :
  uint64 displayWidth <> 0 ->
  forall (bs : list byte) (i : Z) (st : Accum) (w : World) (k : nat),
    0 <= i ->
    skipn (Z.to_nat i) buffer = bs ->
    (List.length bs < k)%nat ->
    let r := foldBytes fileScale displayWidth (i =? 0) bs st in
    exists (w' : World) (extra : list string),
      formatLoop k buffer fileScale displayWidth i st w = (Abort 2, w')
      /\ stdout w' = stdout w ++ snd r ++ extra
      /\ (extra = []
          \/ extra = [outputLine fileScale displayWidth
                        (linePosition (fst r)) (hexDigits (fst r))
                        (chrDigits (fst r))]).
Proof.
  intros HW. induction bs as [|b bs IH]; intros i st w k Hi Hsk Hk r; subst r.
  - destruct k as [|k]; [cbn [List.length] in Hk; lia|].
    apply skipn_nil_nth in Hsk.
    destruct (formatByte_out_of_range buffer fileScale displayWidth i st w Hsk)
      as (w' & extra & E & Hout & Hex).
    cbn [formatLoop foldBytes fst snd app]. unfold bind. rewrite E.
    exists w', extra. repeat split; assumption.
  - destruct k as [|k]; [cbn [List.length] in Hk; lia|].
    apply skipn_cons_nth in Hsk as [Hb Hrest].
    destruct (formatByte_step buffer fileScale displayWidth i st w b HW Hi Hb)
      as (w1 & E1 & [O1 _]).
    assert (Hsk1 : skipn (Z.to_nat (i + 1)) buffer = bs).
    { replace (Z.to_nat (i + 1)) with (S (Z.to_nat i)) by lia. exact Hrest. }
    assert (Hz : (i + 1 =? 0) = false) by (apply Z.eqb_neq; lia).
    cbn [formatLoop foldBytes]. unfold bind at 1. rewrite E1.
    destruct (stepBytes fileScale displayWidth (i =? 0) b st) as [st1 l1].
    cbn [fst snd] in *.
    destruct (IH (i + 1) st1 w1 k ltac:(lia) Hsk1
                ltac:(cbn [List.length] in Hk; lia))
      as (w2 & extra & E2 & O2 & Hex).
    rewrite Hz in O2, Hex.
    destruct (foldBytes fileScale displayWidth false bs st1) as [st2 l2].
    cbn [fst snd] in *.
    exists w2, extra. split; [exact E2|]. split; [|exact Hex].
    rewrite O2, O1, <- !app_assoc. reflexivity.
Qed.

(** X2.  A count of valid bytes larger than the buffer makes
    [formatBuffer] stop with a run-time panic, status 2, when the
    index leaves the buffer: no offset is returned.  The lines printed
    on standard output before that, read back from the text, show the
    bytes of the buffer in order, all of them or all but the last row,
    which has at most [displayWidth] bytes. *)
Theorem formatBuffer_count_beyond_buffer (buffer : list byte) (n : Z)
    (fileScale : HexFormat) (p displayWidth : Z) (w : World) :
  supportedWidth displayWidth ->
  Z.of_nat (List.length buffer) < n ->
  0 <= p < wrap64 ->
  exists (w' : World) (lines : list string) (lost : list byte),
    formatBuffer buffer n fileScale p displayWidth w = (Abort 2, w')
    /\ stdout w' = stdout w ++ lines
    /\ List.concat (map lineBytes lines) ++ lost = buffer
    /\ Z.of_nat (List.length lost) <= displayWidth.
Proof.
  intros HW Hn Hp. apply supportedWidth_ok in HW.
  destruct (formatLoop_overrun buffer fileScale displayWidth
              (width_nonzero displayWidth HW) buffer 0
              (mkAccum EmptyString EmptyString p p) w (Z.to_nat n)
              (Z.le_refl 0) eq_refl ltac:(lia))
    as (w' & extra & E & Hout & Hex).
  change (0 =? 0) with true in Hout, Hex.
  destruct (foldBytes_shape fileScale displayWidth HW buffer true _ [] p
              (tracks_initial displayWidth HW p Hp) (fun _ => eq_refl))
    as (rows & Hls & Hcat & _ & Hshort & _).
  cbn [app] in Hcat.
  assert (E' : formatBuffer buffer n fileScale p displayWidth w
               = (Abort 2, w'))
    by (unfold formatBuffer, bind; now rewrite E).
  destruct Hex as [-> | ->].
  - (* the open row is lost *)
    rewrite app_nil_r in Hout.
    assert (Hne : rows <> []).
    { intros ->. cbn [map] in Hls. now destruct (snd _). }
    rewrite (app_removelast_last (0, []) Hne) in Hls, Hcat.
    rewrite map_app in Hls. cbn [map] in Hls.
    apply app_inj_tail in Hls as [Hfront _].
    rewrite map_app, List.concat_app in Hcat. cbn [map List.concat] in Hcat.
    rewrite app_nil_r in Hcat.
    exists w', (map (rowLine fileScale displayWidth) (removelast rows)),
      (snd (last rows (0, []))).
    split; [exact E'|]. split; [now rewrite Hout, Hfront|].
    split; [now rewrite lineBytes_rows|].
    rewrite Forall_forall in Hshort.
    apply (Hshort (last rows (0, []))).
    destruct (exists_last Hne) as (l & x & ->).
    rewrite last_last. apply in_or_app. right. now left.
  - (* the open row was printed before the index left the buffer *)
    exists w', (map (rowLine fileScale displayWidth) rows), [].
    split; [exact E'|]. split; [now rewrite Hout, Hls|].
    split; [now rewrite lineBytes_rows, app_nil_r|].
    cbn [List.length]. lia.
Qed.

Lemma formatBuffer_count_beyond_buffer_witness :
  exists (w' : World) (lines : list string) (lost : list byte),
    formatBuffer [x41; x42] 3 hex16Bits 0 16 (mkWorld [] []) = (Abort 2, w')
    /\ stdout w' = [] ++ lines
    /\ List.concat (map lineBytes lines) ++ lost = [x41; x42]
    /\ Z.of_nat (List.length lost) <= 16.
Proof.
  apply (formatBuffer_count_beyond_buffer [x41; x42] 3 hex16Bits 0 16
           (mkWorld [] [])).
  - left. reflexivity.
  - cbn [List.length]. lia.
  - unfold wrap64. lia.
Defined.

(** X3.  With a display width of 0 and at least one valid byte
    [formatBuffer] stops at the first remainder with a run-time panic,
    status 2: it returns no offset and has printed nothing on standard
    output. *)
Theorem formatBuffer_zero_width (buffer : list byte) (n : Z)
    (fileScale : HexFormat) (p : Z) (w : World) :
  1 <= n ->
  fst (formatBuffer buffer n fileScale p 0 w) = Abort 2
  /\ stdout (snd (formatBuffer buffer n fileScale p 0 w)) = stdout w.
Proof.
  intros Hn. unfold formatBuffer, bind.
  destruct (Z.to_nat n) as [|k] eqn:E; [lia|].
  split; reflexivity.
Qed.

Lemma formatBuffer_zero_width_witness :
  fst (formatBuffer [x41] 1 hex16Bits 0 0 (mkWorld [] [])) = Abort 2
  /\ stdout (snd (formatBuffer [x41] 1 hex16Bits 0 0 (mkWorld [] []))) = [].
Proof.
  apply (formatBuffer_zero_width [x41] 1 hex16Bits 0 (mkWorld [] [])). lia.
Defined.

(** * The printed lines on the grid *)

Lemma rowsFrom_range (displayWidth : Z) (fuel : nat) :
  0 < displayWidth < wrap64 ->
  forall (p : Z) (c : list byte),
    (List.length c <= fuel)%nat ->
    Forall (fun r => p <= fst r
                     /\ fst r + Z.of_nat (List.length (snd r))
                        <= p + Z.of_nat (List.length c))
           (rowsFrom fuel displayWidth p c).
Proof.
  intros HW. induction fuel as [|fuel IH]; intros p c Hlen; [constructor|].
  destruct c as [|b c]; [constructor|].
  cbn [rowsFrom].
  pose proof (room_bounds displayWidth HW p) as [Hrb _].
  constructor.
  - cbn [fst snd]. rewrite length_firstn. lia.
  - destruct (Nat.le_gt_cases (List.length (b :: c)) (room displayWidth p))
      as [Hle|Hgt].
    + rewrite skipn_all2, rowsFrom_nil by (exact HW || exact Hle).
      constructor.
    + specialize (IH (p + Z.of_nat (room displayWidth p))
                    (skipn (room displayWidth p) (b :: c))
                    ltac:(rewrite length_skipn; cbn [List.length] in *; lia)).
      revert IH. apply Forall_impl. intros r [H1 H2].
      rewrite length_skipn in H2. lia.
Qed.

Lemma tl_map {A B : Type} (f : A -> B) (l : list A) :
  tl (map f l) = map f (tl l).
Proof. now destruct l. Qed.

Lemma removelast_map {A B : Type} (f : A -> B) (l : list A) :
  removelast (map f l) = map f (removelast l).
Proof.
  induction l as [|x l IH]; [reflexivity|].
  cbn [map removelast]. destruct l as [|y l]; [reflexivity|].
  cbn [map] in *. now rewrite IH.
Qed.

(** A property of the rows is a property of the lines as they read
    back. *)
Lemma Forall_read_back (fileScale : HexFormat) (displayWidth : Z)
    (P : Z -> list byte -> Prop) (rows : list Row) :
  Forall (fun r => 0 <= fst r < wrap64) rows ->
  Forall (fun r => P (fst r) (snd r)) rows ->
  Forall (fun line => P (lineAddress line) (lineBytes line))
         (map (rowLine fileScale displayWidth) rows).
Proof.
  intros Hrange HP. apply Forall_forall. intros line Hin.
  apply in_map_iff in Hin as (r & <- & Hr).
  rewrite Forall_forall in Hrange, HP.
  rewrite lineBytes_rowLine, lineAddress_rowLine by now apply Hrange.
  now apply HP.
Qed.

(** X5.  The lines of a call, read back from the text, lie on the grid
    of the display width.  They show the bytes of the chunk in order;
    the first has the offset of the call as its address; every line
    shows between 1 and [displayWidth] bytes; every line after the
    first has a multiple of [displayWidth] as its address; every line
    before the last ends at one; so all lines between the first and
    the last are full, and also the first when the call starts at a
    multiple. *)
Theorem formatBuffer_rows_on_grid (fileScale : HexFormat) (displayWidth : Z)
    (c junk : list byte) (p : Z) (w : World) :
  supportedWidth displayWidth ->
  c <> [] ->
  0 <= p ->
  p + Z.of_nat (List.length c) <= wrap64 ->
  exists (w' : World) (lines : list string),
    formatBuffer (c ++ junk) (Z.of_nat (List.length c)) fileScale p
      displayWidth w
    = (Ok (uint64 (p + Z.of_nat (List.length c))), w')
    /\ stdout w' = stdout w ++ lines
    /\ List.concat (map lineBytes lines) = c
    /\ map lineAddress (firstn 1 lines) = [p]
    /\ Forall (fun line =>
                 1 <= Z.of_nat (List.length (lineBytes line)) <= displayWidth)
              lines
    /\ Forall (fun line => lineAddress line mod displayWidth = 0) (tl lines)
    /\ Forall (fun line =>
                 (lineAddress line + Z.of_nat (List.length (lineBytes line)))
                 mod displayWidth = 0)
              (removelast lines)
    /\ Forall (fun line =>
                 Z.of_nat (List.length (lineBytes line)) = displayWidth)
              (tl (removelast lines))
    /\ (p mod displayWidth = 0 ->
        Forall (fun line =>
                  Z.of_nat (List.length (lineBytes line)) = displayWidth)
               (removelast lines)).
Proof.
  intros HW Hc Hp Hmax. apply supportedWidth_ok in HW.
  assert (Hl : (1 <= List.length c)%nat)
    by (destruct c; [contradiction | cbn [List.length]; lia]).
  destruct (formatBuffer_grid fileScale displayWidth c junk p w HW Hc Hp Hmax)
    as (w' & E & [Hout _]).
  destruct (rowsFrom_grid displayWidth HW (List.length c) p c (Nat.le_refl _))
    as (G1 & G2 & G3 & G4).
  pose proof (rowsFrom_range displayWidth (List.length c) HW p c
                (Nat.le_refl _)) as Hbounds.
  pose proof (rowsFrom_step displayWidth HW (List.length c) p c Hc
                (Nat.le_refl _)) as Hstep.
  set (rows := rowsFrom (List.length c) displayWidth p c) in *.
  assert (Hrange : Forall (fun r => 0 <= fst r < wrap64) rows).
  { rewrite Forall_forall in *. intros r Hr.
    specialize (Hbounds r Hr). specialize (G1 r Hr). cbv beta in *. lia. }
  assert (Hfull : forall l : list Row,
            Forall (fun r => fst r mod displayWidth = 0) l ->
            Forall (fun r => List.length (snd r) = room displayWidth (fst r))
                   l ->
            Forall (fun r => Z.of_nat (List.length (snd r)) = displayWidth) l).
  { intros l H1 H2. rewrite Forall_forall in *. intros r Hr.
    rewrite (H2 r Hr). apply room_aligned; [exact HW | exact (H1 r Hr)]. }
  exists w', (map (rowLine fileScale displayWidth) rows).
  split; [exact E|]. split; [exact Hout|].
  split; [|split; [|split; [|split; [|split; [|split]]]]].
  - rewrite lineBytes_rows. apply rowsFrom_concat; [exact HW | lia].
  - rewrite Hstep. cbn [map firstn]. f_equal.
    apply (lineAddress_rowLine fileScale displayWidth). cbn [fst]. lia.
  - apply (Forall_read_back fileScale displayWidth
             (fun _ bs => 1 <= Z.of_nat (List.length bs) <= displayWidth));
      [exact Hrange|].
    revert G1. apply Forall_impl. intros r [H1 H2].
    pose proof (room_bounds displayWidth HW (fst r)). lia.
  - rewrite tl_map.
    apply (Forall_read_back fileScale displayWidth
             (fun a _ => a mod displayWidth = 0));
      [apply Forall_tl; exact Hrange | exact G2].
  - rewrite removelast_map.
    apply (Forall_read_back fileScale displayWidth
             (fun a bs => (a + Z.of_nat (List.length bs))
                          mod displayWidth = 0));
      [apply Forall_removelast; exact Hrange|].
    revert G4. apply Forall_impl. intros r H. rewrite H.
    apply room_end. exact HW.
  - rewrite removelast_map, tl_map.
    apply (Forall_read_back fileScale displayWidth
             (fun _ bs => Z.of_nat (List.length bs) = displayWidth));
      [apply Forall_tl, Forall_removelast; exact Hrange|].
    apply Hfull.
    + rewrite tl_removelast. apply Forall_removelast. exact G2.
    + apply Forall_tl. exact G4.
  - intros Hz. rewrite removelast_map.
    apply (Forall_read_back fileScale displayWidth
             (fun _ bs => Z.of_nat (List.length bs) = displayWidth));
      [apply Forall_removelast; exact Hrange|].
    apply Hfull; [|exact G4].
    apply Forall_removelast. apply G3. exact Hz.
Qed.

Lemma formatBuffer_rows_on_grid_witness :
  exists (w' : World) (lines : list string),
    formatBuffer ([x41; x42; x0a; xff] ++ [x00])
      (Z.of_nat (List.length [x41; x42; x0a; xff])) hex16Bits 14 16
      (mkWorld [] [])
    = (Ok (uint64 (14 + Z.of_nat (List.length [x41; x42; x0a; xff]))), w')
    /\ stdout w' = [] ++ lines
    /\ List.concat (map lineBytes lines) = [x41; x42; x0a; xff]
    /\ map lineAddress (firstn 1 lines) = [14]
    /\ Forall (fun line => 1 <= Z.of_nat (List.length (lineBytes line)) <= 16)
              lines
    /\ Forall (fun line => lineAddress line mod 16 = 0) (tl lines)
    /\ Forall (fun line =>
                 (lineAddress line + Z.of_nat (List.length (lineBytes line)))
                 mod 16 = 0)
              (removelast lines)
    /\ Forall (fun line => Z.of_nat (List.length (lineBytes line)) = 16)
              (tl (removelast lines))
    /\ (14 mod 16 = 0 ->
        Forall (fun line => Z.of_nat (List.length (lineBytes line)) = 16)
               (removelast lines)).
Proof.
  apply (formatBuffer_rows_on_grid hex16Bits 16 [x41; x42; x0a; xff] [x00] 14
           (mkWorld [] [])).
  - left. reflexivity.
  - discriminate.
  - lia.
  - vm_compute. discriminate.
Defined.

(** * The address column of a file's dump *)

Lemma addressField_rowLine (fileScale : HexFormat) (displayWidth : Z)
    (r : Row) :
  addressField (rowLine fileScale displayWidth r)
  = sprintfHexUpper fileScale (fst r).
Proof.
  unfold rowLine, outputLine. unfold sprintfHexUpper.
  apply addressField_digits.
Qed.

Lemma sizeScale_fits (size a : Z) :
  0 <= a <= size ->
  size < 2 ^ 63 ->
  a < 16 ^ Z.of_nat (formatDigits (sizeScale size)).
Proof.
  intros Ha Hsize. unfold sizeScale. change maxUint16 with 65535.
  change maxUint32 with 4294967295.
  destruct (Z.ltb_spec size 65535); [cbn; lia|].
  destruct (Z.ltb_spec size 4294967295); [cbn; lia|].
  cbn. lia.
Qed.

Lemma rowsLength_app (r1 r2 : list Row) :
  rowsLength (r1 ++ r2) = rowsLength r1 + rowsLength r2.
Proof.
  unfold rowsLength.
  rewrite map_app, List.concat_app, length_app, Nat2Z.inj_add. reflexivity.
Qed.

Lemma rowsLength_nonneg (rows : list Row) : 0 <= rowsLength rows.
Proof. unfold rowsLength. lia. Qed.

(** X9.  A regular file whose stream delivers, without error, no more
    bytes than the size that [os.Stat] gave.  In the dump that [main]
    prints for that path, the address field of every line, read from
    the text, has exactly the digits of the format selected for the
    size (4, 8 or 16), and stands for an offset within the size: the
    address column has one width on all lines. *)
Theorem file_dump_addresses_have_scale_width (fs : FileSystem)
    (displayWidth : Z) (file : string) (info : FileInfo)
    (chunks : list (list byte)) (w : World) :
  supportedWidth displayWidth ->
  osStat fs file = inl info ->
  IsRegular info = true ->
  osOpen fs file = inl (readsOf chunks) ->
  Z.of_nat (List.length (List.concat chunks)) <= Size info ->
  Size info < 2 ^ 63 ->
  exists (w' : World) (lines : list string),
    dumpFile fs displayWidth file w = (Ok tt, w')
    /\ stdout w' = stdout w ++ lines
    /\ stderr w' = stderr w
    /\ List.concat (map lineBytes lines) = List.concat chunks
    /\ Forall (fun line =>
                 String.length (addressField line)
                 = formatDigits (sizeScale (Size info))
                 /\ 0 <= lineAddress line <= Size info)
              lines.
Proof.
  intros HW Hstat Hreg Hopen Hlen Hsize. apply supportedWidth_ok in HW.
  assert (Hor : openRegularFile fs file
                = Opened (readsOf chunks) (sizeScale (Size info)))
    by (unfold openRegularFile; now rewrite Hstat, Hreg, Hopen).
  destruct (hexdump_emits (sizeScale (Size info)) displayWidth HW
              (readsOf chunks) w) as (w' & E & Hout & Herr).
  destruct (formatted_readsOf chunks) as [Hf Hr].
  rewrite Hf, Hr, app_nil_r in Hout.
  destruct (dumpLines_rows (sizeScale (Size info)) displayWidth chunks HW 0
              ltac:(split; [lia | reflexivity]))
    as (rows & Hrows & Hcat & Hoff).
  exists w', (dumpLines (sizeScale (Size info)) displayWidth 0 chunks).
  split; [unfold dumpFile; now rewrite Hor|].
  split; [exact Hout|]. split; [exact Herr|]. split.
  - apply (dumpLines_bytes (sizeScale (Size info)) displayWidth HW chunks 0).
    split; [lia | reflexivity].
  - rewrite Hrows. apply Forall_forall. intros line Hin.
    apply in_map_iff in Hin as (r & <- & Hr').
    apply in_split in Hr' as (rb & ra & ->).
    pose proof (offsetsFrom_middle rb 0 r ra Hoff) as Hfst.
    assert (Htotal : rowsLength (rb ++ r :: ra)
                     = Z.of_nat (List.length (List.concat chunks))).
    { unfold rowsLength. f_equal. f_equal. exact Hcat. }
    rewrite rowsLength_app in Htotal.
    pose proof (rowsLength_nonneg rb) as Hb.
    pose proof (rowsLength_nonneg (r :: ra)) as Ha.
    assert (Hsmall : 0 <= 0 + rowsLength rb < wrap64)
      by (unfold wrap64; lia).
    rewrite (uint64_small _ Hsmall) in Hfst.
    assert (Hrange : 0 <= fst r < wrap64) by (unfold wrap64; lia).
    rewrite addressField_rowLine, lineAddress_rowLine by exact Hrange.
    destruct (sprintfHexUpper_address (sizeScale (Size info)) (fst r) Hrange)
      as (_ & _ & A3).
    split; [|lia]. apply A3. apply sizeScale_fits; lia.
Qed.

Lemma file_dump_addresses_have_scale_width_witness :
  exists (w' : World) (lines : list string),
    dumpFile
      (mkFileSystem (fun _ => inl (mkFileInfo true 17))
                    (fun _ => inl (readsOf [repeat x41 16; [x42]])))
      16 "data.bin"%string (mkWorld [] []) = (Ok tt, w')
    /\ stdout w' = [] ++ lines
    /\ stderr w' = []
    /\ List.concat (map lineBytes lines)
       = List.concat [repeat x41 16; [x42]]
    /\ Forall (fun line =>
                 String.length (addressField line)
                 = formatDigits (sizeScale (Size (mkFileInfo true 17)))
                 /\ 0 <= lineAddress line <= Size (mkFileInfo true 17))
              lines.
Proof.
  apply (file_dump_addresses_have_scale_width
           (mkFileSystem (fun _ => inl (mkFileInfo true 17))
                         (fun _ => inl (readsOf [repeat x41 16; [x42]])))
           16 "data.bin"%string (mkFileInfo true 17)
           [repeat x41 16; [x42]] (mkWorld [] [])).
  - left. reflexivity.
  - reflexivity.
  - reflexivity.
  - reflexivity.
  - vm_compute. discriminate.
  - reflexivity.
Defined.
